(** * JXG.Math: a shallow embedding of [src/Math.js]

    JavaScript numbers are IEEE 754 binary64 values, so a number is a
    primitive [float] here: [+ - * /] and [Math.sqrt] are the correctly
    rounded binary64 operations, [==] is [PrimFloat.eqb] (false on NaN, true
    on [0 == -0]), and Leibniz equality on [float] is bit identity (there is
    one NaN).  Functions of the host that binary64 does not define
    ([Math.pow], [Math.exp], [Math.log], the printing of a number) are
    parameters of the sections that use them. *)

From Stdlib Require Import ZArith Lia Bool List Floats.
From Stdlib Require Uint63.
From stdpp Require Import base list strings gmap.

Local Open Scope bool_scope.

(** ** Numbers *)
Module Num.

Local Open Scope float_scope.

(** [isNaN(x)] on a number. *)
Definition isNaN (x : float) : bool := negb (x =? x).

(** [isFinite(x)]: neither NaN nor an infinity. *)
Definition isFinite (x : float) : bool :=
  negb (isNaN x) && negb (x =? infinity) && negb (x =? neg_infinity).

Definition Math_abs (x : float) : float := PrimFloat.abs x.
Definition Math_sqrt (x : float) : float := PrimFloat.sqrt x.

(** The number an integer of magnitude below [2^63] denotes (rounded to
    nearest when it has more than 53 significant bits). *)
Definition of_Z (z : Z) : float :=
  match z with
  | Z0 => 0
  | Zpos _ => of_uint63 (Uint63.of_Z z)
  | Zneg p => - of_uint63 (Uint63.of_Z (Zpos p))
  end.

Definition of_nat (n : nat) : float := of_Z (Z.of_nat n).

(** The value of a finite number, as the integer [value * 2^1074] (every
    finite binary64 number is a multiple of [2^-1074]); [None] on an
    infinity and on NaN. *)
Definition scale : Z := 2 ^ 1074.

Definition scaled (x : float) : option Z :=
  match Prim2SF x with
  | S754_zero _ => Some 0%Z
  | S754_finite s m e => Some (cond_Zopp s (Zpos m * 2 ^ (e + 1074)))
  | _ => None
  end.

(** [v] is a whole multiple of [scale]; the test shifts the low 1074 bits
    out and back in. *)
Definition whole (v : Z) : bool := (Z.shiftl (Z.shiftr v 1074) 1074 =? v)%Z.

(** The integer a number is, when it is one: [None] on a fraction, an
    infinity or NaN. *)
Definition exact_Z (x : float) : option Z :=
  match scaled x with
  | Some v => if whole v then Some (Z.shiftr v 1074) else None
  | None => None
  end.

(** A finite number that is not an integer. *)
Definition fractional (x : float) : bool :=
  match scaled x with
  | Some v => negb (whole v)
  | None => false
  end.


(** [Math.floor]: the largest integral number not above [x]; zeros,
    infinities and NaN are returned as they are.  A number with a fractional
    part is below [2^52] in magnitude, so its floor is exact. *)
Definition Math_floor (x : float) : float :=
  match Prim2SF x with
  | S754_finite s m e =>
      if (0 <=? e)%Z then x
      else
        let q := Z.shiftr (Zpos m) (- e) in
        if (Z.shiftl q (- e) =? Zpos m)%Z then x
        else if s then of_Z (- (q + 1)) else of_Z q
  | _ => x
  end.

(** A zero of either sign. *)
Definition is_zero (x : float) : Prop := x = 0 \/ x = neg_zero.

(** The same number, or two zeros: what [==] cannot tell apart on the
    finite numbers. *)
Definition same_or_zeros (s x : float) : Prop :=
  s = x \/ (is_zero s /\ is_zero x).

End Num.

(** ** The stdform normalizer *)
Module Stdform.

Import Num.
Local Open Scope float_scope.

(** The array [[c, b0, b1, a, k, r, q0, q1]].  [normalize] writes slots 5, 6
    and 7 before it reads them, so an input array that has only slots 0-4
    behaves as one with any values there. *)
Record stdform : Type := Std {
  slot0 : float; slot1 : float; slot2 : float; slot3 : float;
  slot4 : float; slot5 : float; slot6 : float; slot7 : float }.

(** [stdform[i] = v], one setter per index the source assigns. *)
Definition set0 v s := Std v (slot1 s) (slot2 s) (slot3 s) (slot4 s) (slot5 s) (slot6 s) (slot7 s).
Definition set1 v s := Std (slot0 s) v (slot2 s) (slot3 s) (slot4 s) (slot5 s) (slot6 s) (slot7 s).
Definition set2 v s := Std (slot0 s) (slot1 s) v (slot3 s) (slot4 s) (slot5 s) (slot6 s) (slot7 s).
Definition set3 v s := Std (slot0 s) (slot1 s) (slot2 s) v (slot4 s) (slot5 s) (slot6 s) (slot7 s).
Definition set4 v s := Std (slot0 s) (slot1 s) (slot2 s) (slot3 s) v (slot5 s) (slot6 s) (slot7 s).
Definition set5 v s := Std (slot0 s) (slot1 s) (slot2 s) (slot3 s) (slot4 s) v (slot6 s) (slot7 s).
Definition set6 v s := Std (slot0 s) (slot1 s) (slot2 s) (slot3 s) (slot4 s) (slot5 s) v (slot7 s).
Definition set7 v s := Std (slot0 s) (slot1 s) (slot2 s) (slot3 s) (slot4 s) (slot5 s) (slot6 s) v.

(** [JXG.Math.normalize], statement by statement; each [let s := set_ ...]
    is one assignment to the array. *)
Definition normalize (s : stdform) : stdform :=
  let a2 := 2 * slot3 s in
  let r := slot4 s / a2 in
  let s := set5 r s in
  let s := set6 ((- slot1 s) / a2) s in
  let s := set7 ((- slot2 s) / a2) s in
  if (r =? infinity) || isNaN r then
    let n := Math_sqrt (slot1 s * slot1 s + slot2 s * slot2 s) in
    let s := set0 (slot0 s / n) s in
    let s := set1 (slot1 s / n) s in
    let s := set2 (slot2 s / n) s in
    let s := set3 0 s in
    set4 1 s
  else if 1 <=? Math_abs r then
    let s := set0 ((slot6 s * slot6 s + slot7 s * slot7 s - r * r) / (2 * r)) s in
    let s := set1 ((- slot6 s) / r) s in
    let s := set2 ((- slot7 s) / r) s in
    let s := set3 (1 / (2 * r)) s in
    set4 1 s
  else
    let signr := if r <=? 0 then -1 else 1 in
    let s := set0 (signr * (slot6 s * slot6 s + slot7 s * slot7 s - r * r) * 0.5) s in
    let s := set1 ((- signr) * slot6 s) s in
    let s := set2 ((- signr) * slot7 s) s in
    let s := set3 (signr / 2) s in
    set4 (signr * r) s.

(** The quantities [normalize] derives from the input before it branches. *)
Definition radius (s : stdform) : float := slot4 s / (2 * slot3 s).
Definition center0 (s : stdform) : float := (- slot1 s) / (2 * slot3 s).
Definition center1 (s : stdform) : float := (- slot2 s) / (2 * slot3 s).

(** The three branch tests, as the source evaluates them on [r]. *)
Definition line_regime (s : stdform) : bool :=
  (radius s =? infinity) || isNaN (radius s).
Definition large_regime (s : stdform) : bool :=
  negb (line_regime s) && (1 <=? Math_abs (radius s)).
Definition small_regime (s : stdform) : bool :=
  negb (line_regime s) && negb (1 <=? Math_abs (radius s)).

(** A stdform with slots 0-4 given and slots 5-7 not yet derived. *)
Definition fresh (c b0 b1 a k : float) : stdform := Std c b0 b1 a k 0 0 0.

End Stdform.

(** ** JavaScript values that the memoizer and the matrices hold *)
Module JS.

Local Open Scope float_scope.

Inductive jsval : Type :=
  | JUndef                 (* undefined *)
  | JNum (x : float)       (* a number *)
  | JStr (s : string)      (* a string *)
  | JRef (id : nat).       (* a reference to an object or a function *)

(** [typeof v != 'undefined'] *)
Definition defined (v : jsval) : bool :=
  match v with JUndef => false | _ => true end.

(** ToBoolean, as [||] and [if] apply it. *)
Definition truthy (v : jsval) : bool :=
  match v with
  | JUndef => false
  | JNum x => negb ((x =? 0) || Num.isNaN x)
  | JStr s => negb (String.eqb s EmptyString)
  | JRef _ => true
  end.

(** [v || 0] *)
Definition or_zero (v : jsval) : jsval := if truthy v then v else JNum 0.

End JS.

(** ** The vector and matrix kernel *)
Module Kernel.

Import JS.
Local Open Scope float_scope.

(** [a[i]] in an arithmetic expression over an array of numbers: an index
    past the end reads [undefined], which [*] turns into NaN. *)
Definition num_at (a : list float) (i : nat) : float := nth i a nan.

(** [res[i] = v] on an array of numbers: replaces inside the array, appends
    at its end, and past the end leaves holes (which arithmetic reads as
    NaN) before the new element. *)
Definition store (i : nat) (v : float) (res : list float) : list float :=
  if (i <? length res)%nat then <[i := v]> res
  else res ++ replicate (i - length res) nan ++ [v].

(** The accumulation loop [s = 0; for (k = 0; k < n; k++) s += row[k]*vec[k]]. *)
Definition accumulate (row vec : list float) (n : nat) : float :=
  fold_left (fun s k => s + num_at row k * num_at vec k) (seq 0 n) 0.

(** The body of the unrolled loop, for one row. *)
Definition unrolled (row vec : list float) : float :=
  num_at row 0 * num_at vec 0 + num_at row 1 * num_at vec 1
  + num_at row 2 * num_at vec 2.

(** [for (i = 0; i < m; i++) res[i] = body(mat[i])], from [res = []]. *)
Definition each_row (body : list float -> float) (mat : list (list float))
  : list float :=
  fold_left (fun res i => store i (body (nth i mat [])) res)
            (seq 0 (length mat)) [].

(** The [else] branch of [matVecMult]: the general path. *)
Definition matVecMult_general (mat : list (list float)) (vec : list float)
  : list float :=
  each_row (fun row => accumulate row vec (length vec)) mat.

(** [JXG.Math.matVecMult] *)
Definition matVecMult (mat : list (list float)) (vec : list float)
  : list float :=
  if (length vec =? 3)%nat
  then each_row (fun row => unrolled row vec) mat
  else matVecMult_general mat vec.

(** How the two paths' results for one row can relate: the same number, or
    [-0] from the unrolled sum against [+0] from the loop. *)
Definition same_or_zero_sign (u g : float) : Prop :=
  u = g \/ (u = neg_zero /\ g = 0).

(** The three products [row[k] * vec[k]], [k = 0, 1, 2], are all [-0]. *)
Definition products_neg_zero (row vec : list float) : Prop :=
  num_at row 0 * num_at vec 0 = neg_zero
  /\ num_at row 1 * num_at vec 1 = neg_zero
  /\ num_at row 2 * num_at vec 2 = neg_zero.

(** How the results [u] of the unrolled path and [g] of the loop relate on
    one row: [-0] against [+0] where the three products are [-0], and the
    same number on every other row. *)
Definition paths_agree (vec row : list float) (u g : float) : Prop :=
  (products_neg_zero row vec /\ u = neg_zero /\ g = 0)
  \/ (~ products_neg_zero row vec /\ u = g).

(** A matrix whose entries are any values: an array of rows. *)
Abbreviation matrix_t := (list (list jsval)).

(** [M[j][i]] for a row [j] that exists: [undefined] past the end of the
    row.  [matTranspose] reads rows [j < M.length] only. *)
Definition entry (M : matrix_t) (j i : nat) : jsval :=
  match M !! j with
  | Some row => match row !! i with Some v => v | None => JUndef end
  | None => JUndef
  end.

(** [MT[i][j] = v] for a row [i] and a column [j] that exist. *)
Definition set_entry (i j : nat) (v : jsval) (MT : matrix_t) : matrix_t :=
  match MT !! i with
  | Some row => <[i := <[j := v]> row]> MT
  | None => MT
  end.

(** [JXG.Math.matrix(n, m, init)] for whole [n] and [m] (the array lengths
    [matTranspose] passes): [new Array(n)] has [n] holes, and the loops
    assign every one of them. *)
Definition matrix (n m : nat) (init : jsval) : matrix_t :=
  let init := or_zero init in
  let r := replicate n [] in
  fold_left
    (fun r i =>
       let row := replicate m JUndef in
       let row := fold_left (fun row j => <[j := init]> row) (seq 0 m) row in
       <[i := row]> r)
    (seq 0 n) r.

(** [M.length > 0 ? M[0].length : 0] *)
Definition columns (M : matrix_t) : nat :=
  match M with
  | [] => 0%nat
  | row0 :: _ => length row0
  end.

(** [JXG.Math.matTranspose] *)
Definition matTranspose (M : matrix_t) : matrix_t :=
  let m := length M in
  let n := columns M in
  let MT := matrix n m JUndef in
  fold_left
    (fun MT i =>
       fold_left (fun MT j => set_entry i j (entry M j i) MT) (seq 0 m) MT)
    (seq 0 n) MT.

(** Every row of [M] has [n] entries. *)
Definition rectangular (n : nat) (M : matrix_t) : Prop :=
  Forall (fun row => length row = n) M.

(** [JXG.Math.identity(n, m)] for whole numbers [n] and [m]: [typeof m] is
    ['number'], so the test of the vector case fails, and the matrix of
    zeros that [matrix(n, m)] returns gets its diagonal assigned. *)
Definition identity (n m : nat) : matrix_t :=
  let r := matrix n m JUndef in
  fold_left (fun r i => set_entry i i (JNum 1) r) (seq 0 (Nat.min n m)) r.

(** [JXG.Math.matMatMult] on arrays of arrays of numbers; [None] is the
    TypeError of [mat2[0].length] on a [mat2] without rows. *)
Definition matMatMult (mat1 mat2 : list (list float)) : option matrix_t :=
  let m := length mat1 in
  match (if (0 <? m)%nat then length <$> mat2 !! 0%nat else Some 0%nat) with
  | None => None
  | Some n =>
      let m2 := length mat2 in
      let res := matrix m n JUndef in
      Some
        (fold_left
           (fun res i =>
              fold_left
                (fun res j =>
                   let s :=
                     fold_left
                       (fun s k =>
                          s + num_at (nth i mat1 []) k * num_at (nth k mat2 []) j)
                       (seq 0 m2) 0 in
                   set_entry i j (JNum s) res)
                (seq 0 n) res)
           (seq 0 m) res)
  end.


(** [JXG.Math.innerProduct(a, b, n)] for [n] omitted ([None], which makes
    it [a.length]) or a whole number. *)
Definition innerProduct (a b : list float) (n : option nat) : float :=
  let n := match n with None => length a | Some n => n end in
  fold_left (fun s i => s + num_at a i * num_at b i) (seq 0 n) 0.

(** An array of arrays of numbers, as the array of arrays of values it is. *)
Definition numbers (A : list (list float)) : matrix_t := map (map JNum) A.

(** Column [j] of an array of rows of numbers. *)
Definition column (j : nat) (A : list (list float)) : list float :=
  map (fun row => num_at row j) A.

(** The rows with 1 at their own index and 0 elsewhere. *)
Definition unit_rows (n : nat) : list (list float) :=
  (fun i => (fun j => if (i =? j)%nat then 1 else 0) <$> seq 0 n) <$> seq 0 n.

End Kernel.

(** ** The memoizer *)
Module Memo.

Import JS.

Section Host.

(** What the host decides: how a number and an object print, and what an
    empty object literal inherits under a property name ([JUndef] when
    [Object.prototype] has no such property). *)
Variable numToString : float -> string.
Variable refToString : nat -> string.
Variable Object_prototype : string -> jsval.

(** One element of [Array.prototype.join]: [undefined] prints as the empty
    string, a string as itself. *)
Definition join_item (v : jsval) : string :=
  match v with
  | JUndef => EmptyString
  | JNum x => numToString x
  | JStr s => s
  | JRef id => refToString id
  end.

(** [join.call(arguments)]: the elements, separated by a comma. *)
Definition join (args : list jsval) : string :=
  String.concat "," (map join_item args).

(** [cache[key]]: the own property, else the inherited one. *)
Definition cache_get (cache : gmap string jsval) (key : string) : jsval :=
  match cache !! key with
  | Some v => v
  | None => Object_prototype key
  end.

(** A function object is either a function of the program, taken as the
    pure map from its arguments to its result, or a closure that
    [memoizer] returned, which holds the function it wraps and its cache. *)
Inductive code : Type :=
  | Source (g : list jsval -> jsval)
  | Memoized (f : nat) (cache : gmap string jsval).

(** [memo] is the property [f.memo]: absent, or a reference to a wrapper. *)
Record fobj : Type := Fobj { body : code; memo : option nat }.

(** The function objects by reference, and the log of every evaluation of
    a [Source] body (which function, on which arguments). *)
Record heap : Type := Heap { funs : list fobj; evals : list (nat * list jsval) }.

(** [JXG.memoizer(f)]; [None] when [f] refers to no function. *)
Definition memoizer (h : heap) (f : nat) : option (heap * nat) :=
  match funs h !! f with
  | None => None
  | Some o =>
      match memo o with
      | Some w => Some (h, w)
      | None =>
          let w := length (funs h) in
          Some (Heap (<[f := Fobj (body o) (Some w)]> (funs h)
                       ++ [Fobj (Memoized f ∅) None])
                     (evals h), w)
      end
  end.

(** [cache[key] = v] in the closure [w]. *)
Definition cache_set (w : nat) (key : string) (v : jsval) (h : heap) : heap :=
  match funs h !! w with
  | Some (Fobj (Memoized f cache) mo) =>
      Heap (<[w := Fobj (Memoized f (<[key := v]> cache)) mo]> (funs h)) (evals h)
  | _ => h
  end.

(** A call [f(args)]: value and heap after it; [None] when the nesting of
    wrappers is deeper than [fuel] or [f] refers to no function. *)
Fixpoint call (fuel : nat) (h : heap) (f : nat) (args : list jsval)
  : option (jsval * heap) :=
  match fuel with
  | O => None
  | S fuel =>
      match funs h !! f with
      | None => None
      | Some o =>
          match body o with
          | Source g => Some (g args, Heap (funs h) (evals h ++ [(f, args)]))
          | Memoized t cache =>
              let key := join args in
              if defined (cache_get cache key) then Some (cache_get cache key, h)
              else
                match call fuel h t args with
                | Some (v, h') => Some (v, cache_set f key v h')
                | None => None
                end
          end
      end
  end.

(** The heap that holds the one function [g], not yet wrapped. *)
Definition initial (g : list jsval -> jsval) : heap := Heap [Fobj (Source g) None] [].

(** The heap after [memo = JXG.memoizer(g)]: [g] is function 0 and its
    wrapper is function 1. *)
Definition wrapped (g : list jsval -> jsval) : heap :=
  Heap [Fobj (Source g) (Some 1%nat); Fobj (Memoized 0 ∅) None] [].

(** A series of calls [memo(a1); memo(a2); ...] of the wrapper [w], with the
    results in order. *)
Fixpoint run (w : nat) (h : heap) (calls : list (list jsval))
  : option (list jsval * heap) :=
  match calls with
  | [] => Some ([], h)
  | args :: rest =>
      match call 2 h w args with
      | Some (v, h') =>
          match run w h' rest with
          | Some (vs, h'') => Some (v :: vs, h'')
          | None => None
          end
      | None => None
      end
  end.

(** The argument tuples on which function [f] was evaluated, in order. *)
Definition evaluated (f : nat) (h : heap) : list (list jsval) :=
  map snd (List.filter (fun e => Nat.eqb (fst e) f) (evals h)).

(** What the calls made so far guarantee about the heap: function 0 is [g]
    with its wrapper, function 1, recorded in [g.memo]; every entry of the
    wrapper's cache is the result of [g] on arguments that were passed
    ([seen]) and that join to the entry's key; [g] was evaluated on passed
    arguments only, and each evaluation left an entry under its key. *)
Definition consistent (g : list jsval -> jsval) (seen : list (list jsval))
           (h : heap) : Prop :=
  exists cache,
    funs h = [Fobj (Source g) (Some 1%nat); Fobj (Memoized 0 cache) None]
    /\ (forall key v, cache !! key = Some v ->
          exists a, a ∈ seen /\ join a = key /\ g a = v)
    /\ (forall e, e ∈ evals h -> fst e = 0%nat /\ snd e ∈ seen)
    /\ (forall a, a ∈ evaluated 0 h -> is_Some (cache !! join a))
    /\ ((forall a, a ∈ seen -> defined (g a) = true) ->
        NoDup (map join (evaluated 0 h))).

End Host.

(** An empty object literal that inherits no property. *)
Definition bare_prototype (key : string) : jsval := JUndef.

(** Printers for examples whose arguments are strings only, so that no
    number and no reference is ever printed. *)
Definition never_printed_number (x : float) : string := EmptyString.
Definition never_printed_ref (id : nat) : string := EmptyString.

(** Two pure functions: the number of arguments passed, and a function that
    returns [undefined]. *)
Definition count_args (args : list jsval) : jsval :=
  JNum (Num.of_nat (length args)).
Definition no_result (args : list jsval) : jsval := JUndef.

End Memo.

(** ** Factorial and binomial coefficient *)
Module Combinatorics.

Import Num.
Local Open Scope float_scope.

(** The function [JXG.Math.factorial] wraps.  [arguments.callee] is this
    function itself, so the recursive calls do not go through the cache.
    [fuel] bounds the depth of the recursion: [None] when the call has not
    returned within it. *)
Fixpoint factorial (fuel : nat) (n : float) : option float :=
  match fuel with
  | O => None
  | S fuel =>
      if n <? 0 then Some nan
      else if (n =? 0) || (n =? 1) then Some 1
      else match factorial fuel (n - 1) with
           | Some v => Some (n * v)
           | None => None
           end
  end.

(** The call on [n] returns without recursing. *)
Definition stops (n : float) : bool := (n <? 0) || (n =? 0) || (n =? 1).



(** The loop [for (i = 0; i < k; i++) { b *= (n-i); b /= (i+1); }] from the
    state [(i, b)]; [fuel] bounds the number of tests of [i < k]. *)
Fixpoint binomial_loop (fuel : nat) (n k i b : float) : option float :=
  match fuel with
  | O => None
  | S fuel =>
      if i <? k then binomial_loop fuel n k (i + 1) ((b * (n - i)) / (i + 1))
      else Some b
  end.

(** The function [JXG.Math.binomial] wraps; [k > n] is written [n <? k]. *)
Definition binomial (fuel : nat) (n k : float) : option float :=
  if (n <? k) || (k <? 0) then Some 0
  else if (k =? 0) || (k =? n) then Some 1
  else binomial_loop fuel n k 0 1.

(** The binomial coefficient as the specification writes it,
    [n! / (k! (n-k)!)], over the integers. *)
Fixpoint Zfact (n : nat) : Z :=
  match n with
  | O => 1
  | S p => Z.of_nat n * Zfact p
  end.

Definition choose (n k : nat) : Z := (Zfact n / (Zfact k * Zfact (n - k)))%Z.

(** The product [prod_{i=0}^{k-1} (n-i)/(i+1)] as the specification writes
    it, multiplied out from [i = 0] in binary64. *)
Definition binomial_product (n : float) (k : nat) : float :=
  fold_left (fun b i => (b * (n - of_nat i)) / (of_nat i + 1)) (seq 0 k) 1.

(** [check n] for every [n] below [bound]. *)
Definition all_below (bound : nat) (check : nat -> bool) : bool :=
  forallb check (seq 0 bound).


(** [binomial(n, k)] returns exactly [n! / (k! (n-k)!)]. *)
Definition binomial_is (n k : nat) : bool :=
  match binomial (S k) (of_nat n) (of_nat k) with
  | Some v =>
      match exact_Z v with
      | Some z => Z.eqb z (choose n k)
      | None => false
      end
  | None => false
  end.

End Combinatorics.

(** ** Numeric helpers *)
Module Helpers.

Import Num.
Local Open Scope float_scope.

Section Host.

(** [Math.pow], [Math.exp] and [Math.log] of the host. *)
Variable Math_pow : float -> float -> float.
Variable Math_exp : float -> float.
Variable Math_log : float -> float.

(** [JXG.Math.pow] *)
Definition pow (a b : float) : float :=
  if a =? 0 then
    if b =? 0 then 1 else 0
  else if Math_floor b =? b then Math_pow a b
  else if 0 <? a then Math_exp (b * Math_log (Math_abs a))
  else nan.

(** The test the source makes for "b is integer". *)
Definition is_integer (b : float) : bool := Math_floor b =? b.

(** [JXG.Math.cosh] *)
Definition cosh (x : float) : float := (Math_exp x + Math_exp (- x)) * 0.5.

(** [JXG.Math.sinh] *)
Definition sinh (x : float) : float := (Math_exp x - Math_exp (- x)) * 0.5.

End Host.

End Helpers.

(** * Properties *)

(** ** Binary64 arithmetic, from its specification *)
Module NumFacts.

Import Num.
Local Open Scope float_scope.

Local Open Scope Z_scope.

(** A power of two such as [2 ^ 1074] is kept abstract in an arithmetic
    goal: only what the hypotheses say of it is used. *)
Ltac hide_power t :=
  let P := fresh "P" in set (P := t) in *; clearbody P.

(** *** The number of bits of a significand *)
Lemma digits_upper (m : positive) : Zpos m < 2 ^ Zpos (digits2_pos m).
Proof.
  change (digits2_pos m) with (Pos.size m).
  pose proof (Pos.size_gt m) as H.
  rewrite <- Pos2Z.inj_pow. lia.
Qed.

Lemma digits_lower (m : positive) : 2 ^ Zpos (digits2_pos m) <= 2 * Zpos m.
Proof.
  change (digits2_pos m) with (Pos.size m).
  pose proof (Pos.size_le m) as H.
  rewrite <- Pos2Z.inj_pow. lia.
Qed.

Lemma digits_unique (m : positive) (d : Z) :
  2 ^ d <= 2 * Zpos m -> Zpos m < 2 ^ d -> Zpos (digits2_pos m) = d.
Proof.
  intros Hl Hu.
  pose proof (digits_upper m) as Hu'. pose proof (digits_lower m) as Hl'.
  assert (0 <= d). { destruct (Z_lt_le_dec d 0) as [Hn|]; [|lia]. rewrite Z.pow_neg_r in Hu by lia. lia. }
  destruct (Z_lt_le_dec (Zpos (digits2_pos m)) d) as [Hlt|Hge].
  - assert (2 ^ (Zpos (digits2_pos m) + 1) <= 2 ^ d) by (apply Z.pow_le_mono_r; lia).
    rewrite Z.pow_add_r in H0 by lia. lia.
  - destruct (Z_lt_le_dec d (Zpos (digits2_pos m))) as [Hlt|Hge']; [|lia].
    assert (2 ^ (d + 1) <= 2 ^ Zpos (digits2_pos m)) by (apply Z.pow_le_mono_r; lia).
    rewrite Z.pow_add_r in H0 by lia. lia.
Qed.

Lemma digits_shift (m m' : positive) (j : Z) :
  0 <= j -> Zpos m' = Zpos m * 2 ^ j ->
  Zpos (digits2_pos m') = Zpos (digits2_pos m) + j.
Proof.
  intros Hj E. apply digits_unique.
  - rewrite E, Z.pow_add_r by lia. pose proof (digits_lower m).
    assert (0 < 2 ^ j) by (apply Z.pow_pos_nonneg; lia). nia.
  - rewrite E, Z.pow_add_r by lia. pose proof (digits_upper m).
    assert (0 < 2 ^ j) by (apply Z.pow_pos_nonneg; lia). nia.
Qed.

(** *** Shifting a significand right *)
Lemma iter_pos_nat {A} (f : A -> A) (p : positive) (x : A) :
  SpecFloat.iter_pos f p x = Nat.iter (Pos.to_nat p) f x.
Proof.
  revert x. induction p as [p IH|p IH|]; intros x; cbn [SpecFloat.iter_pos].
  - rewrite !IH, Pos2Nat.inj_xI.
    replace (S (2 * Pos.to_nat p)) with (Pos.to_nat p + (Pos.to_nat p + 1))%nat by lia.
    rewrite !Nat.iter_add. reflexivity.
  - rewrite !IH, Pos2Nat.inj_xO.
    replace (2 * Pos.to_nat p)%nat with (Pos.to_nat p + Pos.to_nat p)%nat by lia.
    rewrite Nat.iter_add. reflexivity.
  - reflexivity.
Qed.

Lemma shr_nat_exact (n : nat) :
  forall mx m' : positive,
    Zpos mx = Zpos m' * 2 ^ Z.of_nat n ->
    Nat.iter n shr_1 (Build_shr_record (Zpos mx) false false)
    = Build_shr_record (Zpos m') false false.
Proof.
  induction n as [|n IH]; intros mx m' E.
  - cbn in *. f_equal. lia.
  - rewrite Nat.iter_succ_r.
    rewrite Nat2Z.inj_succ, Z.pow_succ_r in E by lia.
    destruct mx as [mx|mx|]; try lia.
    cbn [shr_1 orb]. apply IH. lia.
Qed.

Lemma shr_exact (mx m' : positive) (e n : Z) :
  0 <= n -> Zpos mx = Zpos m' * 2 ^ n ->
  shr (Build_shr_record (Zpos mx) false false) e n
  = (Build_shr_record (Zpos m') false false, e + n).
Proof.
  intros Hn E. destruct n as [|p|p]; try lia.
  - cbn in *. rewrite Z.add_0_r. repeat f_equal. lia.
  - cbn [shr]. rewrite iter_pos_nat.
    rewrite (shr_nat_exact _ mx m'); [reflexivity|].
    now rewrite positive_nat_Z.
Qed.

(** *** Rounding a value that needs none *)
Lemma fexp64 z : fexp prec emax z = Z.max (z - 53) (-1074).
Proof. reflexivity. Qed.

Lemma bounded64 m e :
  bounded prec emax m e = true <->
  Z.max (Zpos (digits2_pos m) + e - 53) (-1074) = e /\ e <= 971.
Proof.
  unfold bounded, canonical_mantissa. rewrite fexp64.
  rewrite andb_true_iff, Z.eqb_eq, Z.leb_le. reflexivity.
Qed.

Lemma round_aux_exact sx (mx m' : positive) (ex n : Z) :
  0 <= n -> Zpos mx = Zpos m' * 2 ^ n ->
  bounded prec emax m' (ex + n) = true ->
  binary_round_aux prec emax sx (Zpos mx) ex loc_Exact
  = S754_finite sx m' (ex + n).
Proof.
  intros Hn E B. apply bounded64 in B as [Hc He].
  pose proof (digits_shift m' mx n Hn E) as Hd.
  unfold binary_round_aux, shr_fexp.
  cbn [Zdigits2 shr_record_of_loc]. rewrite fexp64, Hd.
  replace (Z.max (Zpos (digits2_pos m') + n + ex - 53) (-1074) - ex) with n by lia.
  rewrite (shr_exact mx m' ex n Hn E).
  cbn [shr_m loc_of_shr_record round_nearest_even Zdigits2 shr_record_of_loc].
  rewrite fexp64.
  replace (Z.max (Zpos (digits2_pos m') + (ex + n) - 53) (-1074) - (ex + n)) with 0 by lia.
  cbn [shr shr_m].
  replace (ex + n <=? emax - prec) with true; [reflexivity|].
  symmetry. apply Z.leb_le. exact He.
Qed.

Lemma pos_iter_xO (m d : positive) :
  Zpos (Pos.iter xO m d) = Zpos m * 2 ^ Zpos d.
Proof.
  revert m. induction d as [|d IH] using Pos.peano_ind; intros m.
  - cbn. lia.
  - rewrite Pos.iter_succ, Pos2Z.inj_succ, Z.pow_succ_r by lia.
    rewrite Pos2Z.inj_xO, IH. lia.
Qed.

Lemma shl_align_value (mx : positive) (ex ex' : Z) :
  ex' <= ex ->
  exists mz, shl_align mx ex ex' = (mz, ex')
             /\ Zpos mz = Zpos mx * 2 ^ (ex - ex').
Proof.
  intros H. unfold shl_align.
  destruct (ex' - ex) as [|d|d] eqn:E; try lia.
  - exists mx. replace ex' with ex by lia. rewrite Z.sub_diag. split; [reflexivity|lia].
  - exists (Pos.iter xO mx d). split; [reflexivity|].
    rewrite pos_iter_xO. f_equal. f_equal. lia.
Qed.

(** Rounding a representable value: the result has the same value. *)
Lemma binary_round_value sx (mx : positive) (ex : Z) :
  let f := fexp prec emax (Zpos (digits2_pos mx) + ex) in
  -1074 <= ex ->
  f <= 971 ->
  (2 ^ Z.max 0 (f - ex) | Zpos mx) ->
  exists m' e',
    binary_round prec emax sx mx ex = S754_finite sx m' e'
    /\ Zpos m' * 2 ^ (e' + 1074) = Zpos mx * 2 ^ (ex + 1074)
    /\ -1074 <= e'.
Proof.
  intros f Hex Hf Hdiv. unfold binary_round. fold f.
  assert (Hfmin : -1074 <= f) by (unfold f; rewrite fexp64; lia).
  assert (Hfdef : f = Z.max (Zpos (digits2_pos mx) + ex - 53) (-1074)) by reflexivity.
  clearbody f.
  destruct (Z_lt_le_dec f ex) as [Hlt|Hge].
  - (* shift left *)
    destruct (shl_align_value mx ex f ltac:(lia)) as (mz & -> & Hmz).
    pose proof (digits_shift mx mz (ex - f) ltac:(lia) Hmz) as Hd.
    rewrite (round_aux_exact sx mz mz f 0 ltac:(lia)).
    + exists mz, (f + 0). split; [reflexivity|]. split; [|lia].
      rewrite Hmz, <- Z.mul_assoc, <- Z.pow_add_r by lia. do 2 f_equal. lia.
    + lia.
    + apply bounded64. rewrite Z.add_0_r, Hd. split; lia.
  - (* shift right by f - ex *)
    unfold shl_align.
    assert (Hal : (match f - ex with Z.neg d => (Pos.iter xO mx d, f) | _ => (mx, ex) end) = (mx, ex)).
    { destruct (f - ex) eqn:E; try reflexivity. lia. }
    rewrite Hal.
    rewrite Z.max_r in Hdiv by lia.
    destruct Hdiv as [k Hk].
    assert (Hpow : 0 < 2 ^ (f - ex)) by (apply Z.pow_pos_nonneg; lia).
    destruct k as [|m'|m']; try lia.
    pose proof (digits_shift m' mx (f - ex) ltac:(lia) Hk) as Hd.
    rewrite (round_aux_exact sx mx m' ex (f - ex) ltac:(lia) Hk).
    + exists m', (ex + (f - ex)). split; [reflexivity|]. split; [|lia].
      rewrite Hk, <- Z.mul_assoc, <- Z.pow_add_r by lia. do 2 f_equal. lia.
    + apply bounded64. replace (ex + (f - ex)) with f by lia. split; lia.
Qed.

Lemma digits_le (p : positive) (j : Z) :
  0 <= j -> Zpos p < 2 ^ j -> Zpos (digits2_pos p) <= j.
Proof.
  intros Hj Hp. pose proof (digits_lower p) as Hl.
  destruct (Z_lt_le_dec j (Zpos (digits2_pos p))) as [Hlt|]; [|lia].
  assert (2 ^ (j + 1) <= 2 ^ Zpos (digits2_pos p)) by (apply Z.pow_le_mono_r; lia).
  rewrite Z.pow_add_r in H by lia. lia.
Qed.





(** *** Subtracting 1 *)

Lemma bounded_exponent m e :
  bounded prec emax m e = true ->
  -1074 <= e /\ Zpos m < 2 ^ 53.
Proof.
  intros B. apply bounded64 in B as [Hc He]. split; [lia|].
  pose proof (digits_upper m) as Hu.
  assert (2 ^ Zpos (digits2_pos m) <= 2 ^ 53) by (apply Z.pow_le_mono_r; lia).
  lia.
Qed.

(** A number from 1 up to [2^53] has its exponent between -52 and 0. *)
Lemma exponent_range m e :
  bounded prec emax m e = true ->
  2 ^ 1074 <= Zpos m * 2 ^ (e + 1074) ->
  Zpos m * 2 ^ (e + 1074) < 2 ^ 53 * 2 ^ 1074 ->
  -52 <= e <= 0.
Proof.
  intros B Hlo Hhi. destruct (bounded_exponent m e B) as [He Hm].
  apply bounded64 in B as [Hc _].
  pose proof (digits_lower m) as Hl.
  assert (HS : 0 < 2 ^ 1074) by (apply Z.pow_pos_nonneg; lia).
  assert (HP : 0 < 2 ^ (e + 1074)) by (apply Z.pow_pos_nonneg; lia).
  split.
  - destruct (Z_lt_le_dec e (-52)) as [Hlt|]; [|lia]. exfalso.
    assert (H : 2 ^ (e + 1074) <= 2 ^ 1021) by (apply Z.pow_le_mono_r; lia).
    assert (E : 2 ^ 1074 = 2 ^ 53 * 2 ^ 1021)
      by (rewrite <- Z.pow_add_r by lia; reflexivity).
    rewrite E in Hlo. clear E HS Hhi.
    hide_power (2 ^ 1021). hide_power (2 ^ (e + 1074)). nia.
  - destruct (Z_lt_le_dec 0 e) as [Hlt|]; [|lia]. exfalso.
    assert (Hd : Zpos (digits2_pos m) = 53) by lia. rewrite Hd in Hl.
    assert (H : 2 ^ 1075 <= 2 ^ (e + 1074)) by (apply Z.pow_le_mono_r; lia).
    assert (E : 2 ^ 1075 = 2 * 2 ^ 1074)
      by (rewrite <- Z.pow_succ_r by lia; reflexivity).
    rewrite E in H. clear E Hlo.
    hide_power (2 ^ 1074). hide_power (2 ^ (e + 1074)). nia.
Qed.



(** *** Multiplying and dividing by 1 and -1 *)

Lemma Prim2SF_one : Prim2SF 1 = S754_finite false 4503599627370496 (-52).
Proof. reflexivity. Qed.

Lemma Prim2SF_minus_one : Prim2SF (-1) = S754_finite true 4503599627370496 (-52).
Proof. reflexivity. Qed.

Lemma div_eucl_pair a b : Z.div_eucl a b = (a / b, a mod b).
Proof. unfold Z.div, Z.modulo. destruct (Z.div_eucl a b); reflexivity. Qed.

(** The quotient of a significand by that of 1 is the significand, with one
    more bit when the dividend is normal. *)
Lemma SFdiv_core_one m e :
  bounded prec emax m e = true ->
  SFdiv_core_binary prec emax (Zpos m) e 4503599627370496 (-52)
  = (Zpos m~0, e - 1, loc_Exact)
  \/ SFdiv_core_binary prec emax (Zpos m) e 4503599627370496 (-52)
  = (Zpos m, e, loc_Exact).
Proof.
  intros H. apply bounded64 in H as [Hc He].
  unfold SFdiv_core_binary. cbn [Zdigits2].
  change (Zpos (digits2_pos 4503599627370496)) with 53.
  set (d1 := Zpos (digits2_pos m)) in *.
  rewrite fexp64.
  destruct (Z_lt_le_dec (d1 + e - 54) (-1074)) as [Hs|Hn].
  - right.
    replace (Z.min (Z.max (d1 + e - (53 + -52) - 53) (-1074)) (e - -52))
      with e by lia.
    replace (e - -52 - e) with 52 by lia.
    rewrite div_eucl_pair, Z.shiftl_mul_pow2 by lia.
    change (2 ^ 52) with 4503599627370496.
    rewrite Z.div_mul, Z.mod_mul by lia. reflexivity.
  - left.
    replace (Z.min (Z.max (d1 + e - (53 + -52) - 53) (-1074)) (e - -52))
      with (e - 1) by lia.
    replace (e - -52 - (e - 1)) with 53 by lia.
    rewrite div_eucl_pair, Z.shiftl_mul_pow2 by lia.
    replace (Zpos m * 2 ^ 53) with (Zpos m~0 * 4503599627370496) by lia.
    rewrite Z.div_mul, Z.mod_mul by lia. reflexivity.
Qed.

Lemma SFmul_one_l s0 x :
  valid_binary x = true ->
  SF64mul (S754_finite s0 4503599627370496 (-52)) x
  = if s0 then SFopp x else x.
Proof.
  intros V. destruct x as [s|s| |s m e].
  - destruct s0, s; reflexivity.
  - destruct s0, s; reflexivity.
  - destruct s0; reflexivity.
  - unfold SF64mul, SFmul.
    rewrite (round_aux_exact _ _ m (-52 + e) 52).
    + replace (-52 + e + 52) with e by lia. destruct s0, s; reflexivity.
    + lia.
    + lia.
    + replace (-52 + e + 52) with e by lia. exact V.
Qed.

Lemma SFdiv_one_r s0 x :
  valid_binary x = true ->
  SF64div x (S754_finite s0 4503599627370496 (-52))
  = if s0 then SFopp x else x.
Proof.
  intros V. destruct x as [s|s| |s m e].
  - destruct s0, s; reflexivity.
  - destruct s0, s; reflexivity.
  - destruct s0; reflexivity.
  - unfold SF64div, SFdiv.
    destruct (SFdiv_core_one m e V) as [->| ->].
    + rewrite (round_aux_exact _ _ m (e - 1) 1).
      * replace (e - 1 + 1) with e by lia. destruct s0, s; reflexivity.
      * lia.
      * lia.
      * replace (e - 1 + 1) with e by lia. exact V.
    + rewrite (round_aux_exact _ _ m e 0).
      * rewrite Z.add_0_r. destruct s0, s; reflexivity.
      * lia.
      * lia.
      * rewrite Z.add_0_r. exact V.
Qed.

Local Close Scope Z_scope.

(** Multiplying and dividing by 1 and -1 is exact, on every number. *)
Lemma mul_one_l x : 1 * x = x.
Proof.
  apply Prim2SF_inj. rewrite mul_spec, Prim2SF_one.
  rewrite SFmul_one_l by apply Prim2SF_valid. reflexivity.
Qed.

Lemma mul_minus_one_l x : (-1) * x = - x.
Proof.
  apply Prim2SF_inj. rewrite mul_spec, opp_spec, Prim2SF_minus_one.
  rewrite SFmul_one_l by apply Prim2SF_valid. reflexivity.
Qed.

Lemma div_one_r x : x / 1 = x.
Proof.
  apply Prim2SF_inj. rewrite div_spec, Prim2SF_one.
  rewrite SFdiv_one_r by apply Prim2SF_valid. reflexivity.
Qed.

Lemma div_minus_one_r x : x / (-1) = - x.
Proof.
  apply Prim2SF_inj. rewrite div_spec, opp_spec, Prim2SF_minus_one.
  rewrite SFdiv_one_r by apply Prim2SF_valid. reflexivity.
Qed.

Lemma opp_opp x : - - x = x.
Proof.
  apply Prim2SF_inj. rewrite !opp_spec.
  destruct (Prim2SF x) as [s|s| |s m e]; cbn;
    try rewrite negb_involutive; reflexivity.
Qed.

(** Bit identity of two numbers is decidable. *)
Lemma float_eq_dec (x y : float) : {x = y} + {x <> y}.
Proof.
  destruct (Leibniz.eqb x y) eqn:E.
  - left. now apply Leibniz.eqb_spec.
  - right. intros H. apply Leibniz.eqb_spec in H. congruence.
Qed.

(** [0 + x] is [x], except that [0 + (-0)] is [+0]. *)
Lemma add_zero_l x : x <> neg_zero -> 0 + x = x.
Proof.
  intros H. apply Prim2SF_inj. rewrite add_spec.
  change (Prim2SF 0) with (S754_zero false).
  destruct (Prim2SF x) as [s|s| |s m e] eqn:E; try reflexivity.
  destruct s; [|reflexivity].
  exfalso; apply H; apply Prim2SF_inj; rewrite E; reflexivity.
Qed.

(** NaN propagates through a product. *)
Lemma mul_nan_r x : x * nan = nan.
Proof.
  apply Prim2SF_inj. rewrite mul_spec.
  change (Prim2SF nan) with S754_nan.
  destruct (Prim2SF x); reflexivity.
Qed.

(** [Math.abs] leaves a positive number as it is. *)
Lemma abs_of_pos a : (0 <? a) = true -> Math_abs a = a.
Proof.
  unfold Math_abs. rewrite ltb_spec.
  change (Prim2SF 0) with (S754_zero false).
  intros H. apply Prim2SF_inj. rewrite abs_spec.
  destruct (Prim2SF a) as [s|s| |s m e]; try discriminate;
    destruct s; try discriminate; reflexivity.
Qed.


(** *** The value of a number *)

Lemma scale_pos : (0 < scale)%Z.
Proof. unfold scale. apply Z.pow_pos_nonneg; lia. Qed.

Lemma whole_spec v : whole v = true <-> (v mod scale = 0)%Z.
Proof.
  unfold whole, scale. rewrite Z.eqb_eq, Z.shiftr_div_pow2, Z.shiftl_mul_pow2 by lia.
  pose proof scale_pos as HS. unfold scale in HS.
  pose proof (Z.div_exact v (2 ^ 1074)) as H.
  hide_power (2 ^ 1074). rewrite Z.mul_comm. split; intros E.
  - apply H; [lia|]. symmetry. exact E.
  - symmetry. apply H; [lia|exact E].
Qed.

(** What [scaled] reads off a valid representation. *)
Lemma scaled_finite x s m e :
  Prim2SF x = S754_finite s m e ->
  scaled x = Some (cond_Zopp s (Zpos m * 2 ^ (e + 1074)))
  /\ bounded prec emax m e = true
  /\ (0 < Zpos m * 2 ^ (e + 1074))%Z.
Proof.
  intros E. unfold scaled. rewrite E. split; [reflexivity|].
  pose proof (Prim2SF_valid x) as V. rewrite E in V. cbn in V.
  split; [exact V|].
  destruct (bounded_exponent m e V) as [He _].
  assert (0 < 2 ^ (e + 1074))%Z by (apply Z.pow_pos_nonneg; lia). lia.
Qed.








(** *** Math.floor and the integers *)

Lemma SFeqb_finite s1 m1 e1 s2 m2 e2 :
  SFeqb (S754_finite s1 m1 e1) (S754_finite s2 m2 e2) = true ->
  s1 = s2 /\ m1 = m2 /\ e1 = e2.
Proof.
  unfold SFeqb. cbn [SFcompare].
  destruct s1, s2; try discriminate;
    destruct (Z.compare_spec e1 e2) as [He| |]; try discriminate;
    destruct (Pos.compare_cont Eq m1 m2) eqn:Hc; try discriminate;
    intros _; apply Pcompare_Eq_eq in Hc; auto.
Qed.

Lemma SFeqb_finite_refl s m e :
  SFeqb (S754_finite s m e) (S754_finite s m e) = true.
Proof.
  unfold SFeqb. cbn [SFcompare].
  rewrite Z.compare_refl, Pcompare_refl. destruct s; reflexivity.
Qed.

(** The number that a positive integer below [2^53] converts to has its
    value. *)
Lemma of_Z_pos_value (q : positive) :
  (Zpos q < 2 ^ 53)%Z ->
  exists m' e',
    Prim2SF (of_Z (Zpos q)) = S754_finite false m' e'
    /\ (Zpos m' * 2 ^ (e' + 1074) = Zpos q * 2 ^ 1074)%Z.
Proof.
  intros Hq. unfold of_Z.
  rewrite of_uint63_spec, Uint63.of_Z_spec.
  rewrite Z.mod_small
    by (change Uint63Axioms.wB with (2 ^ 63)%Z; split; [lia|];
        assert (2 ^ 53 < 2 ^ 63)%Z by (apply Z.pow_lt_mono_r; lia); lia).
  cbn [binary_normalize].
  pose proof (digits_le q 53 ltac:(lia) Hq) as Hd.
  destruct (binary_round_value false q 0) as (m' & e' & Hr & Hv & _).
  - lia.
  - rewrite fexp64. lia.
  - rewrite fexp64. replace (Z.max 0 _) with 0%Z by lia. apply Z.divide_1_l.
  - exists m', e'. split; [exact Hr|]. rewrite Hv. now rewrite Z.add_0_l.
Qed.

(** [m] has a bit below [2^k]. *)
Lemma not_shifted (m : positive) (k : Z) :
  (0 < k)%Z ->
  (Z.shiftl (Z.shiftr (Zpos m) k) k =? Zpos m)%Z = false ->
  forall c, (Zpos m <> c * 2 ^ k)%Z.
Proof.
  intros Hk H c E. apply Z.eqb_neq in H. apply H.
  rewrite Z.shiftr_div_pow2, Z.shiftl_mul_pow2 by lia.
  assert (0 < 2 ^ k)%Z by (apply Z.pow_pos_nonneg; lia).
  rewrite E, Z.div_mul by lia. reflexivity.
Qed.

(** *** Order and identity by value *)

(** Of two positive representations, the one with the larger exponent has
    the larger value. *)
Lemma exponent_monotone m1 e1 m2 e2 :
  bounded prec emax m1 e1 = true -> bounded prec emax m2 e2 = true ->
  (e1 < e2)%Z ->
  (Zpos m1 * 2 ^ (e1 + 1074) < Zpos m2 * 2 ^ (e2 + 1074))%Z.
Proof.
  intros B1 B2 He.
  destruct (bounded_exponent m1 e1 B1) as [He1 Hm1].
  apply bounded64 in B2 as [Hc2 _].
  pose proof (digits_lower m2) as Hl.
  assert (Hd : Zpos (digits2_pos m2) = 53%Z) by lia. rewrite Hd in Hl.
  assert (HP : (0 < 2 ^ (e1 + 1074))%Z) by (apply Z.pow_pos_nonneg; lia).
  assert (H : (2 ^ (e1 + 1074 + 1) <= 2 ^ (e2 + 1074))%Z)
    by (apply Z.pow_le_mono_r; lia).
  rewrite Z.pow_add_r in H by lia.
  change (2 ^ 53)%Z with (2 * 2 ^ 52)%Z in *. nia.
Qed.

Lemma SFltb_value m1 e1 m2 e2 :
  bounded prec emax m1 e1 = true -> bounded prec emax m2 e2 = true ->
  SFltb (S754_finite false m1 e1) (S754_finite false m2 e2)
  = (Zpos m1 * 2 ^ (e1 + 1074) <? Zpos m2 * 2 ^ (e2 + 1074))%Z.
Proof.
  intros B1 B2. unfold SFltb. cbn [SFcompare].
  destruct (bounded_exponent m1 e1 B1) as [He1 _].
  destruct (bounded_exponent m2 e2 B2) as [He2 _].
  destruct (Z.compare_spec e1 e2) as [->|Hlt|Hgt].
  - assert (HP : (0 < 2 ^ (e2 + 1074))%Z) by (apply Z.pow_pos_nonneg; lia).
    change (Pos.compare_cont Eq m1 m2) with (Z.compare (Zpos m1) (Zpos m2)).
    destruct (Z.compare_spec (Zpos m1) (Zpos m2)) as [E|L|G];
      symmetry; [apply Z.ltb_ge|apply Z.ltb_lt|apply Z.ltb_ge]; nia.
  - pose proof (exponent_monotone m1 e1 m2 e2 B1 B2 Hlt).
    symmetry. apply Z.ltb_lt. lia.
  - pose proof (exponent_monotone m2 e2 m1 e1 B2 B1 Hgt).
    symmetry. apply Z.ltb_ge. lia.
Qed.

(** [<] on numbers that are not negative is [<] on their values. *)
Lemma ltb_value x y v w :
  scaled x = Some v -> scaled y = Some w -> (0 <= v)%Z -> (0 <= w)%Z ->
  (x <? y) = (v <? w)%Z.
Proof.
  intros Hx Hy Hv Hw. rewrite ltb_spec.
  destruct (Prim2SF x) as [s|s| |s m e] eqn:Ex.
  - unfold scaled in Hx. rewrite Ex in Hx. injection Hx as <-.
    destruct (Prim2SF y) as [t|t| |t n f] eqn:Ey.
    + unfold scaled in Hy. rewrite Ey in Hy. injection Hy as <-. reflexivity.
    + unfold scaled in Hy. rewrite Ey in Hy. discriminate Hy.
    + unfold scaled in Hy. rewrite Ey in Hy. discriminate Hy.
    + destruct (scaled_finite y t n f Ey) as (Hs & _ & Hp).
      rewrite Hs in Hy. injection Hy as <-.
      destruct t; cbn [cond_Zopp] in *; [lia|].
      symmetry. apply Z.ltb_lt. exact Hp.
  - unfold scaled in Hx. rewrite Ex in Hx. discriminate Hx.
  - unfold scaled in Hx. rewrite Ex in Hx. discriminate Hx.
  - destruct (scaled_finite x s m e Ex) as (Hs & Bx & Hp).
    rewrite Hs in Hx. injection Hx as <-.
    destruct s; cbn [cond_Zopp] in *; [lia|].
    destruct (Prim2SF y) as [t|t| |t n f] eqn:Ey.
    + unfold scaled in Hy. rewrite Ey in Hy. injection Hy as <-.
      symmetry. apply Z.ltb_ge. lia.
    + unfold scaled in Hy. rewrite Ey in Hy. discriminate Hy.
    + unfold scaled in Hy. rewrite Ey in Hy. discriminate Hy.
    + destruct (scaled_finite y t n f Ey) as (Hs' & By & Hp').
      rewrite Hs' in Hy. injection Hy as <-.
      destruct t; cbn [cond_Zopp] in *; [lia|].
      now apply SFltb_value.
Qed.

(** Two numbers with the same positive value are the same number. *)
Lemma positive_value_unique x y v :
  scaled x = Some v -> scaled y = Some v -> (0 < v)%Z -> x = y.
Proof.
  intros Hx Hy Hv. apply Prim2SF_inj.
  destruct (Prim2SF x) as [s|s| |s m e] eqn:Ex.
  - unfold scaled in Hx. rewrite Ex in Hx. injection Hx as <-. lia.
  - unfold scaled in Hx. rewrite Ex in Hx. discriminate Hx.
  - unfold scaled in Hx. rewrite Ex in Hx. discriminate Hx.
  - destruct (scaled_finite x s m e Ex) as (Hs & Bx & Hp).
    rewrite Hs in Hx. injection Hx as Hx.
    destruct s; cbn [cond_Zopp] in *; [lia|].
    destruct (Prim2SF y) as [t|t| |t n f] eqn:Ey.
    + unfold scaled in Hy. rewrite Ey in Hy. injection Hy as <-. lia.
    + unfold scaled in Hy. rewrite Ey in Hy. discriminate Hy.
    + unfold scaled in Hy. rewrite Ey in Hy. discriminate Hy.
    + destruct (scaled_finite y t n f Ey) as (Hs' & By & Hp').
      rewrite Hs' in Hy. injection Hy as Hy.
      destruct t; cbn [cond_Zopp] in *; [lia|].
      destruct (bounded_exponent n f By) as [Hf _].
      assert (e = f).
      { destruct (Z.lt_trichotomy e f) as [L|[E|G]]; [|exact E|].
        - pose proof (exponent_monotone m e n f Bx By L). lia.
        - pose proof (exponent_monotone n f m e By Bx G). lia. }
      subst f.
      assert (HP : (0 < 2 ^ (e + 1074))%Z) by (apply Z.pow_pos_nonneg; lia).
      assert (Zpos m = Zpos n) by nia.
      congruence.
Qed.

(** The number a whole number below [2^53] converts to has its value. *)
Lemma of_nat_value (i : nat) :
  (Z.of_nat i < 2 ^ 53)%Z -> scaled (of_nat i) = Some (Z.of_nat i * scale)%Z.
Proof.
  intros Hi. unfold of_nat.
  destruct (Z.of_nat i) as [|q|q] eqn:E; [reflexivity| |lia].
  destruct (of_Z_pos_value q Hi) as (m & e & Hp & Hv).
  unfold scaled. rewrite Hp. cbn [cond_Zopp]. unfold scale. now rewrite Hv.
Qed.

(** *** Adding 1 to a whole number *)

Lemma SFadd_one_integer m e X :
  bounded prec emax m e = true ->
  (Zpos m * 2 ^ (e + 1074) = X * 2 ^ 1074)%Z ->
  (1 <= X < 2 ^ 53)%Z ->
  exists m' e',
    SF64add (S754_finite false m e) (S754_finite false 4503599627370496 (-52))
    = S754_finite false m' e'
    /\ (Zpos m' * 2 ^ (e' + 1074) = (X + 1) * 2 ^ 1074)%Z.
Proof.
  intros B Hv HX.
  assert (HS : (0 < 2 ^ 1074)%Z) by (apply Z.pow_pos_nonneg; lia).
  destruct (exponent_range m e B) as [He1 He2];
    [rewrite Hv; clear - HX HS; hide_power (2 ^ 1074)%Z; nia ..|].
  unfold SF64add, SFadd. rewrite (Z.min_r e (-52)) by lia.
  destruct (shl_align_value m e (-52) ltac:(lia)) as (mal & -> & Hmal).
  change (shl_align 4503599627370496 (-52) (-52))
    with (4503599627370496%positive, (-52)%Z).
  cbn [fst cond_Zopp].
  assert (HT : (0 < 2 ^ 1022)%Z) by (apply Z.pow_pos_nonneg; lia).
  assert (ET : (2 ^ (e + 1074) = 2 ^ (e - -52) * 2 ^ 1022)%Z)
    by (rewrite <- Z.pow_add_r by lia; f_equal; lia).
  assert (ES : (2 ^ 1074 = 2 ^ 52 * 2 ^ 1022)%Z)
    by (rewrite <- Z.pow_add_r by lia; reflexivity).
  assert (EX : (Zpos mal = X * 2 ^ 52)%Z).
  { rewrite Hmal. apply (Z.mul_cancel_r _ _ (2 ^ 1022)%Z).
    - clear - HT. hide_power (2 ^ 1022)%Z. lia.
    - rewrite <- !Z.mul_assoc, <- ET, <- ES. exact Hv. }
  clear Hv ET ES HT HS Hmal.
  change (Zpos mal + 4503599627370496)%Z with (Zpos (mal + 4503599627370496)).
  set (D := (mal + 4503599627370496)%positive).
  assert (ED : (Zpos D = (X + 1) * 2 ^ 52)%Z)
    by (unfold D; rewrite Pos2Z.inj_add, EX; change 4503599627370496%Z with (2 ^ 52)%Z; lia).
  cbn [binary_normalize].
  assert (E105 : (2 ^ 105 = 2 ^ 53 * 2 ^ 52)%Z) by reflexivity.
  assert (H52 : (0 < 2 ^ 52)%Z) by lia.
  destruct (binary_round_value false D (-52)) as (m' & e' & Hr & Hval & _).
  - lia.
  - rewrite fexp64.
    pose proof (digits_le D 106 ltac:(lia)) as Hd.
    assert (Zpos D < 2 ^ 106)%Z by (change (2 ^ 106)%Z with (2 * 2 ^ 105)%Z; nia).
    lia.
  - rewrite fexp64.
    destruct (Z.eq_dec (X + 1)%Z (2 ^ 53)%Z) as [Emax|Hne].
    + exists (2 ^ (105 - Z.max 0 (Z.max (Zpos (digits2_pos D) + -52 - 53) (-1074) - -52)))%Z.
      pose proof (digits_le D 106 ltac:(lia)) as Hd.
      assert (Zpos D < 2 ^ 106)%Z by (change (2 ^ 106)%Z with (2 * 2 ^ 105)%Z; nia).
      rewrite <- Z.pow_add_r by lia.
      rewrite ED, Emax, <- E105. f_equal. lia.
    + pose proof (digits_le D 105 ltac:(lia)) as Hd.
      assert (Zpos D < 2 ^ 105)%Z by nia.
      set (n := Z.max 0 (Z.max (Zpos (digits2_pos D) + -52 - 53) (-1074) - -52)).
      assert (Hn : (0 <= n <= 52)%Z) by (unfold n; lia).
      exists ((X + 1) * 2 ^ (52 - n))%Z.
      rewrite <- Z.mul_assoc, <- Z.pow_add_r by lia.
      replace (52 - n + n)%Z with 52%Z by lia. exact ED.
  - exists m', e'. split; [exact Hr|].
    rewrite Hval, ED. change (-52 + 1074)%Z with 1022%Z.
    rewrite <- Z.mul_assoc, <- Z.pow_add_r by lia. reflexivity.
Qed.

Lemma add_one_integer x X :
  scaled x = Some (X * scale)%Z -> (0 <= X < 2 ^ 53)%Z ->
  scaled (x + 1) = Some ((X + 1) * scale)%Z.
Proof.
  intros Hx HX. pose proof scale_pos as HS.
  unfold scaled at 1. rewrite add_spec, Prim2SF_one.
  destruct (Prim2SF x) as [s|s| |s m e] eqn:E.
  - unfold scaled in Hx. rewrite E in Hx. injection Hx as Hx.
    assert (X = 0)%Z as -> by nia. reflexivity.
  - unfold scaled in Hx. rewrite E in Hx. discriminate Hx.
  - unfold scaled in Hx. rewrite E in Hx. discriminate Hx.
  - destruct (scaled_finite x s m e E) as (Hs & B & Hp).
    rewrite Hs in Hx. injection Hx as Hx.
    destruct s; cbn [cond_Zopp] in Hx; [nia|].
    assert (HX1 : (1 <= X < 2 ^ 53)%Z) by (clear - Hx Hp HS HX; nia).
    unfold scale in *.
    destruct (SFadd_one_integer m e X B Hx HX1) as (m' & e' & -> & Hv).
    cbn [cond_Zopp]. now rewrite Hv.
Qed.

End NumFacts.

(** ** The stdform normalizer *)
Module StdformFacts.

Import Num Stdform NumFacts.
Local Open Scope float_scope.

(** What [normalize] returns in each of its three branches. *)
Lemma normalize_line s :
  line_regime s = true ->
  normalize s =
  let n := Math_sqrt (slot1 s * slot1 s + slot2 s * slot2 s) in
  Std (slot0 s / n) (slot1 s / n) (slot2 s / n) 0 1
      (radius s) (center0 s) (center1 s).
Proof.
  unfold line_regime, radius, center0, center1, normalize.
  destruct s; cbn. intros ->. reflexivity.
Qed.

Lemma normalize_large s :
  large_regime s = true ->
  normalize s =
  let r := radius s in
  let q0 := center0 s in
  let q1 := center1 s in
  Std ((q0 * q0 + q1 * q1 - r * r) / (2 * r)) ((- q0) / r) ((- q1) / r)
      (1 / (2 * r)) 1 r q0 q1.
Proof.
  unfold large_regime, line_regime, radius, center0, center1, normalize.
  destruct s; cbn. intros H.
  apply andb_true_iff in H as [H1 H2].
  apply negb_true_iff in H1. rewrite H1, H2. reflexivity.
Qed.

Lemma normalize_small s :
  small_regime s = true ->
  normalize s =
  let r := radius s in
  let q0 := center0 s in
  let q1 := center1 s in
  let signr := if r <=? 0 then -1 else 1 in
  Std (signr * (q0 * q0 + q1 * q1 - r * r) * 0.5)
      ((- signr) * q0) ((- signr) * q1) (signr / 2) (signr * r) r q0 q1.
Proof.
  unfold small_regime, line_regime, radius, center0, center1, normalize.
  destruct s; cbn. intros H.
  apply andb_true_iff in H as [H1 H2].
  apply negb_true_iff in H1. apply negb_true_iff in H2.
  rewrite H1, H2. reflexivity.
Qed.

Lemma finite_not_line s :
  isFinite (radius s) = true -> line_regime s = false.
Proof.
  unfold isFinite, line_regime. intros H.
  apply andb_true_iff in H as [H _].
  apply andb_true_iff in H as [H1 H2].
  apply negb_true_iff in H1. apply negb_true_iff in H2.
  rewrite H1, H2. reflexivity.
Qed.


(** The sign [normalize] gives a small radius survives the rebuilt slots:
    the radius and the center that a second pass derives are the first
    pass's. *)
Lemma rederive_radius (r : float) (neg : bool) :
  let signr := if neg then -1 else 1 in
  (signr * r) / (2 * (signr / 2)) = r.
Proof.
  destruct neg; cbn zeta.
  - change (2 * (-1 / 2)) with (-1).
    now rewrite mul_minus_one_l, div_minus_one_r, opp_opp.
  - change (2 * (1 / 2)) with 1.
    now rewrite mul_one_l, div_one_r.
Qed.

Lemma rederive_center (q : float) (neg : bool) :
  let signr := if neg then -1 else 1 in
  (- ((- signr) * q)) / (2 * (signr / 2)) = q.
Proof.
  destruct neg; cbn zeta.
  - change (2 * (-1 / 2)) with (-1). change (- -1) with 1.
    now rewrite mul_one_l, div_minus_one_r, opp_opp.
  - change (2 * (1 / 2)) with 1.
    now rewrite mul_minus_one_l, opp_opp, div_one_r.
Qed.

(** C1, as the source has it: in the large-radius regime the slots are
    rebuilt from the center [(q0, q1)] and the radius [r] derived before the
    branch; slot 3 (the quadratic coefficient) becomes [1 / (2 r)], and it
    is slot 4 (k) that becomes 1. *)
Theorem normalize_large_radius_rebuild (s : stdform) :
  isFinite (radius s) = true ->
  (1 <=? Math_abs (radius s)) = true ->
  let r := radius s in
  let q0 := center0 s in
  let q1 := center1 s in
  slot0 (normalize s) = (q0 * q0 + q1 * q1 - r * r) / (2 * r)
  /\ slot1 (normalize s) = (- q0) / r
  /\ slot2 (normalize s) = (- q1) / r
  /\ slot3 (normalize s) = 1 / (2 * r)
  /\ slot4 (normalize s) = 1
  /\ slot5 (normalize s) = r
  /\ slot6 (normalize s) = q0
  /\ slot7 (normalize s) = q1.
Proof.
  intros Hfin Habs.
  assert (L : large_regime s = true).
  { unfold large_regime. now rewrite (finite_not_line _ Hfin), Habs. }
  rewrite (normalize_large _ L). cbn. repeat split.
Qed.

Lemma normalize_large_radius_rebuild_witness :
  let s := fresh 0 0 0 1 4 in
  slot3 (normalize s) = 1 / (2 * radius s) /\ slot4 (normalize s) = 1.
Proof.
  pose proof (normalize_large_radius_rebuild (fresh 0 0 0 1 4)
                eq_refl eq_refl) as H.
  cbv zeta in H. intuition.
Defined.

(** C1 fails as stated: the circle [x^2 + y^2 = 4] (a = 1, k = 4, so r = 2)
    is in the large-radius regime and its normalized slot 3 is 0.25. *)
Lemma normalize_large_radius_slot3_is_not_1 :
  let s := fresh 0 0 0 1 4 in
  isFinite (radius s) = true
  /\ (1 <=? Math_abs (radius s)) = true
  /\ slot3 (normalize s) = 0.25
  /\ (slot3 (normalize s) =? 1) = false.
Proof. vm_compute. repeat split. Qed.







(** C2, as the source has it: in the small-radius regime ([r] finite with
    [|r| < 1]) a second pass of [normalize] leaves all eight slots as the
    first pass set them. *)
Theorem normalize_idempotent_small (s : stdform) :
  small_regime s = true ->
  normalize (normalize s) = normalize s.
Proof.
  intros S. rewrite (normalize_small _ S). cbv zeta.
  set (r := radius s). set (q0 := center0 s). set (q1 := center1 s).
  set (neg := r <=? 0).
  set (t := Std _ _ _ _ _ _ _ _).
  assert (Hr : radius t = r) by apply (rederive_radius r neg).
  assert (H0 : center0 t = q0) by apply (rederive_center q0 neg).
  assert (H1 : center1 t = q1) by apply (rederive_center q1 neg).
  assert (St : small_regime t = true).
  { unfold small_regime, line_regime in *. rewrite Hr. exact S. }
  rewrite (normalize_small _ St). cbv zeta.
  rewrite Hr, H0, H1. reflexivity.
Qed.

Lemma normalize_idempotent_small_witness :
  let s := fresh 1 2 4 8 4 in
  small_regime s = true /\ normalize (normalize s) = normalize s.
Proof.
  split; [reflexivity|].
  apply (normalize_idempotent_small (fresh 1 2 4 8 4)). reflexivity.
Defined.

(** C2 fails as stated: a second pass changes the line [x + y + 1 = 0]
    (it divides by a recomputed norm), changes the circle with a = 1,
    b1 = 5, k = 3 (it divides by the radius again), and turns the NaN radius
    of a line given with k = 0 into [Infinity]. *)
Lemma normalize_not_idempotent :
  (let t := normalize (fresh 1 1 1 0 1) in
   (slot1 (normalize t) =? slot1 t) = false)
  /\ (let t := normalize (fresh 0 0 5 1 3) in
      (slot0 (normalize t) =? slot0 t) = false)
  /\ (let t := normalize (fresh 5 3 4 0 0) in
      slot5 t = nan /\ slot5 (normalize t) = infinity).
Proof. vm_compute. repeat split. Qed.

End StdformFacts.

(** ** The vector and matrix kernel *)
Module KernelFacts.

Import JS Num Kernel NumFacts.
Local Open Scope float_scope.

(** *** Loops that fill an array index by index *)

(** [res[i] = body(mat[i])] for [i = 0 .. m-1], from the empty array, builds
    the array of the bodies. *)
Lemma each_row_from body (done todo : list (list float)) :
  fold_left (fun res i => store i (body (nth i (done ++ todo) [])) res)
            (seq (length done) (length todo)) (map body done)
  = map body (done ++ todo).
Proof.
  revert done. induction todo as [|row todo IH]; intros done.
  - now rewrite app_nil_r.
  - cbn [length seq fold_left].
    replace (store (length done) (body (nth (length done) (done ++ row :: todo) []))
                   (map body done))
      with (map body (done ++ [row])).
    + specialize (IH (done ++ [row])).
      rewrite <- app_assoc in IH. cbn [app] in IH.
      rewrite length_app in IH. cbn [length] in IH.
      rewrite Nat.add_1_r in IH. exact IH.
    + unfold store. rewrite length_map, Nat.ltb_irrefl, Nat.sub_diag.
      rewrite app_nth2 by lia. rewrite Nat.sub_diag. cbn [nth replicate app].
      now rewrite map_app.
Qed.

Lemma each_row_map body mat : each_row body mat = map body mat.
Proof. exact (each_row_from body [] mat). Qed.

(** The three steps of the accumulation loop on a vector of length 3. *)
Lemma accumulate_3 row vec :
  accumulate row vec 3
  = 0 + num_at row 0 * num_at vec 0 + num_at row 1 * num_at vec 1
    + num_at row 2 * num_at vec 2.
Proof. reflexivity. Qed.

Lemma add_neg_zero_l x : neg_zero + x = x.
Proof.
  apply Prim2SF_inj. rewrite add_spec.
  change (Prim2SF neg_zero) with (S754_zero true).
  destruct (Prim2SF x) as [s|s| |s m e]; try reflexivity.
  destruct s; reflexivity.
Qed.

Lemma unrolled_vs_accumulate row vec :
  same_or_zero_sign (unrolled row vec) (accumulate row vec 3).
Proof.
  rewrite accumulate_3. unfold unrolled, same_or_zero_sign.
  set (p0 := num_at row 0 * num_at vec 0).
  set (p1 := num_at row 1 * num_at vec 1).
  set (p2 := num_at row 2 * num_at vec 2).
  destruct (float_eq_dec p0 neg_zero) as [E0|N0];
    [|left; now rewrite (add_zero_l _ N0)].
  rewrite E0. change (0 + neg_zero) with 0. rewrite add_neg_zero_l.
  destruct (float_eq_dec p1 neg_zero) as [E1|N1];
    [|left; now rewrite (add_zero_l _ N1)].
  rewrite E1. change (0 + neg_zero) with 0. rewrite add_neg_zero_l.
  destruct (float_eq_dec p2 neg_zero) as [E2|N2];
    [|left; now rewrite (add_zero_l _ N2)].
  right. rewrite E2. split; reflexivity.
Qed.

(** [same_or_zero_sign] relates two numbers that [==] cannot tell apart. *)
Lemma same_or_zero_sign_eqb u g :
  same_or_zero_sign u g ->
  (u =? g) = true \/ (isNaN u = true /\ isNaN g = true).
Proof.
  intros [->|[-> ->]]; [|now left].
  unfold isNaN. destruct (g =? g); auto.
Qed.

Lemma Forall2_map_same {A B} (P : B -> B -> Prop) (f g : A -> B) l :
  (forall x, P (f x) (g x)) -> Forall2 P (map f l) (map g l).
Proof. intros H. induction l; cbn; constructor; auto. Qed.

(** The two sums of one row, exactly: they differ where, and only where,
    the three products are [-0]. *)
Lemma unrolled_or_accumulate row vec :
  paths_agree vec row (unrolled row vec) (accumulate row vec 3).
Proof.
  rewrite accumulate_3. unfold unrolled, paths_agree, products_neg_zero.
  set (p0 := num_at row 0 * num_at vec 0).
  set (p1 := num_at row 1 * num_at vec 1).
  set (p2 := num_at row 2 * num_at vec 2).
  destruct (float_eq_dec p0 neg_zero) as [E0|N0];
    [|right; split; [tauto|now rewrite (add_zero_l _ N0)]].
  rewrite E0. change (0 + neg_zero) with 0. rewrite add_neg_zero_l.
  destruct (float_eq_dec p1 neg_zero) as [E1|N1];
    [|right; split; [tauto|now rewrite (add_zero_l _ N1)]].
  rewrite E1. change (0 + neg_zero) with 0. rewrite add_neg_zero_l.
  destruct (float_eq_dec p2 neg_zero) as [E2|N2];
    [|right; split; [tauto|now rewrite (add_zero_l _ N2)]].
  left. rewrite E2. repeat split; reflexivity.
Qed.

Lemma Forall3_map_same {A B} (P : A -> B -> B -> Prop) (f g : A -> B) l :
  (forall x, P x (f x) (g x)) -> Forall3 P l (map f l) (map g l).
Proof. intros H. induction l; cbn; constructor; auto. Qed.

(** C5, as the source has it: on a vector of length 3 the unrolled path
    returns, row by row, the number the general loop returns, bit for bit,
    except on the rows where all three products are [-0]: there, and only
    there, the unrolled sum is [-0] and the loop, which adds to [s = +0],
    returns [+0]; so the two results are always equal under [==] or both
    NaN. *)
Theorem matVecMult_unrolled_agrees (mat : list (list float)) (vec : list float) :
  length vec = 3%nat ->
  Forall3 (paths_agree vec)
          mat (matVecMult mat vec) (matVecMult_general mat vec)
  /\ Forall2 (fun u g => (u =? g) = true \/ (isNaN u = true /\ isNaN g = true))
             (matVecMult mat vec) (matVecMult_general mat vec).
Proof.
  intros L. unfold matVecMult, matVecMult_general.
  rewrite L, !each_row_map. cbn [Nat.eqb].
  split.
  - apply Forall3_map_same. intros row. apply unrolled_or_accumulate.
  - apply Forall2_map_same. intros row.
    apply same_or_zero_sign_eqb, unrolled_vs_accumulate.
Qed.

Lemma matVecMult_unrolled_agrees_witness :
  Forall3 (paths_agree [1; 0; -1])
          [[1; 2; 3]; [4; 5; 6]]
          (matVecMult [[1; 2; 3]; [4; 5; 6]] [1; 0; -1])
          (matVecMult_general [[1; 2; 3]; [4; 5; 6]] [1; 0; -1]).
Proof.
  apply (matVecMult_unrolled_agrees [[1; 2; 3]; [4; 5; 6]] [1; 0; -1]).
  reflexivity.
Defined.

(** C5 fails as stated: for the row [[0, 0, 0]] and the vector
    [[-1, -1, -1]] every product is [-0]; the unrolled path returns [-0] and
    the general loop [+0], which [1/x] tells apart. *)
Lemma matVecMult_unrolled_zero_sign :
  let mat := [[0; 0; 0]] in
  let vec := [-1; -1; -1] in
  products_neg_zero [0; 0; 0] vec
  /\ matVecMult mat vec = [neg_zero]
  /\ matVecMult_general mat vec = [0]
  /\ 1 / num_at (matVecMult mat vec) 0 = neg_infinity
  /\ 1 / num_at (matVecMult_general mat vec) 0 = infinity.
Proof. vm_compute. repeat split. Qed.

(** *** Transposition *)

(** The inner loop of [matTranspose] fills row [i] of [MT] and leaves the
    other rows. *)
Lemma fill_row (h : nat -> jsval) (i : nat) (rsuf rpre : list jsval)
      (MT : matrix_t) :
  MT !! i = Some (rpre ++ rsuf) ->
  fold_left (fun MT j => set_entry i j (h j) MT)
            (seq (length rpre) (length rsuf)) MT
  = <[i := rpre ++ (h <$> seq (length rpre) (length rsuf))]> MT.
Proof.
  revert rpre MT. induction rsuf as [|x rsuf IH]; intros rpre MT Hi.
  - cbn. symmetry. now apply list_insert_id.
  - cbn [length seq fold_left fmap list_fmap].
    assert (Hlt : (i < length MT)%nat) by (eapply lookup_lt_Some; eauto).
    unfold set_entry at 2. rewrite Hi.
    rewrite insert_app_r_alt, Nat.sub_diag by lia. cbn [insert list_insert].
    specialize (IH (rpre ++ [h (length rpre)])
                   (<[i := rpre ++ h (length rpre) :: rsuf]> MT)).
    rewrite length_app, Nat.add_1_r, <- app_assoc in IH. cbn [app] in IH.
    rewrite IH by now apply list_lookup_insert_eq.
    now rewrite list_insert_insert_eq, <- app_assoc.
Qed.

(** The outer loop fills the rows in order. *)
Lemma fill_rows (h : nat -> nat -> jsval) (m : nat)
      (todo done : matrix_t) :
  Forall (fun row => length row = m) todo ->
  fold_left
    (fun MT i => fold_left (fun MT j => set_entry i j (h i j) MT) (seq 0 m) MT)
    (seq (length done) (length todo)) (done ++ todo)
  = done ++ ((fun i => h i <$> seq 0 m) <$> seq (length done) (length todo)).
Proof.
  revert done. induction todo as [|row todo IH]; intros done Hm.
  - reflexivity.
  - apply Forall_cons in Hm as [Hrow Htodo].
    cbn [length seq fold_left fmap list_fmap].
    pose proof (fill_row (h (length done)) (length done) row []
                         (done ++ row :: todo)) as F.
    cbn [app length] in F. rewrite Hrow in F.
    rewrite F by now apply list_lookup_middle.
    rewrite insert_app_r_alt, Nat.sub_diag by lia. cbn [insert list_insert].
    specialize (IH (done ++ [h (length done) <$> seq 0 m]) Htodo).
    rewrite length_app, Nat.add_1_r, <- app_assoc in IH. cbn [app] in IH.
    rewrite IH. now rewrite <- app_assoc.
Qed.

(** A loop that stores the same value at every index. *)
Lemma fill_const {A} (v : A) (todo done : list A) :
  fold_left (fun row j => <[j := v]> row)
            (seq (length done) (length todo)) (done ++ todo)
  = done ++ replicate (length todo) v.
Proof.
  revert done. induction todo as [|x todo IH]; intros done.
  - reflexivity.
  - cbn [length seq fold_left replicate].
    rewrite insert_app_r_alt, Nat.sub_diag by lia. cbn [insert list_insert].
    specialize (IH (done ++ [v])).
    rewrite length_app, Nat.add_1_r, <- app_assoc in IH. cbn [app] in IH.
    rewrite IH. now rewrite <- app_assoc.
Qed.

(** [matrix(n, m, init)] is [n] rows of [m] entries [init || 0]. *)
Lemma matrix_replicate n m init :
  matrix n m init = replicate n (replicate m (or_zero init)).
Proof.
  unfold matrix.
  pose proof (fill_const (or_zero init) (replicate m JUndef) []) as Hrow.
  rewrite length_replicate in Hrow. cbn [app length] in Hrow. rewrite Hrow.
  pose proof (fill_const (replicate m (or_zero init))
                         (replicate n ([] : list jsval)) []) as Hr.
  rewrite length_replicate in Hr. cbn [app length] in Hr. exact Hr.
Qed.

(** [matTranspose(M)] has [columns M] rows; row [i] holds [M[j][i]] for
    every row index [j] of [M]. *)
Lemma matTranspose_spec (M : matrix_t) :
  matTranspose M
  = (fun i => (fun j => entry M j i) <$> seq 0 (length M)) <$> seq 0 (columns M).
Proof.
  unfold matTranspose. rewrite matrix_replicate.
  pose proof (fill_rows (fun i j => entry M j i) (length M)
                (replicate (columns M) (replicate (length M) (or_zero JUndef)))
                []) as H.
  rewrite length_replicate in H. cbn [app length] in H. apply H.
  apply Forall_replicate, length_replicate.
Qed.

Lemma entry_matTranspose (M : matrix_t) (j i : nat) :
  (j < columns M)%nat -> (i < length M)%nat ->
  entry (matTranspose M) j i = entry M i j.
Proof.
  intros Hj Hi. rewrite matTranspose_spec. unfold entry at 1.
  rewrite list_lookup_fmap, lookup_seq_lt by lia. cbn.
  rewrite list_lookup_fmap, lookup_seq_lt by lia. reflexivity.
Qed.

(** C4, as the source has it: transposing twice returns [M], row for row and
    entry for entry, for every rectangular [M] that has no row at all or
    whose rows have at least one entry. *)
Theorem matTranspose_involutive (n : nat) (M : matrix_t) :
  rectangular n M ->
  M = [] \/ (0 < n)%nat ->
  matTranspose (matTranspose M) = M.
Proof.
  intros Hrect Hshape.
  destruct (decide (M = [])) as [->|Hne]; [reflexivity|].
  destruct Hshape as [|Hn]; [contradiction|].
  assert (Hcols : columns M = n).
  { destruct M as [|row0 M']; [contradiction|].
    apply Forall_cons in Hrect as [H0 _]. exact H0. }
  assert (Hlen : length (matTranspose M) = n).
  { now rewrite matTranspose_spec, length_fmap, length_seq. }
  assert (Hcols' : columns (matTranspose M) = length M).
  { rewrite matTranspose_spec, Hcols.
    destruct n as [|n']; [lia|]. cbn [seq fmap list_fmap columns].
    now rewrite length_fmap, length_seq. }
  rewrite (matTranspose_spec (matTranspose M)), Hlen, Hcols'.
  apply list_eq. intros i.
  rewrite list_lookup_fmap.
  destruct (decide (i < length M)%nat) as [Hi|Hi].
  - rewrite lookup_seq_lt by lia. cbn.
    destruct (lookup_lt_is_Some_2 M i Hi) as [row Hrow]. rewrite Hrow.
    f_equal. apply list_eq. intros j.
    assert (Hrowlen : length row = n).
    { eapply (proj1 (Forall_lookup _ _) Hrect); eauto. }
    rewrite list_lookup_fmap.
    destruct (decide (j < n)%nat) as [Hj|Hj].
    + rewrite lookup_seq_lt by lia. cbn.
      rewrite entry_matTranspose by lia.
      unfold entry. rewrite Hrow.
      destruct (lookup_lt_is_Some_2 row j) as [v Hv]; [lia|].
      now rewrite Hv.
    + rewrite (lookup_ge_None_2 (seq 0 n)) by (rewrite length_seq; lia).
      symmetry. apply lookup_ge_None_2. lia.
  - rewrite (lookup_ge_None_2 (seq 0 (length M))) by (rewrite length_seq; lia).
    symmetry. apply lookup_ge_None_2. lia.
Qed.

Lemma matTranspose_involutive_witness :
  let M := [[JNum 1; JNum 2; JNum 3]; [JNum 4; JNum 5; JNum 6]] in
  matTranspose (matTranspose M) = M.
Proof.
  apply (matTranspose_involutive 3).
  - repeat constructor.
  - right. lia.
Defined.

(** C4 fails as stated: the matrix with one row of length zero is
    rectangular, its transpose has no row, and the transpose of that is the
    matrix with no row, not the one row. *)
Lemma matTranspose_empty_rows_lost :
  let M := [[]] : matrix_t in
  rectangular 0 M
  /\ matTranspose M = []
  /\ matTranspose (matTranspose M) = []
  /\ length (matTranspose (matTranspose M)) <> length M.
Proof.
  cbv zeta. split; [repeat constructor|].
  split; [reflexivity|]. split; [reflexivity|]. cbn. lia.
Qed.

End KernelFacts.

(** ** Factorial and binomial coefficient *)
Module CombinatoricsFacts.

Import Num Combinatorics NumFacts.
Local Open Scope float_scope.

Lemma all_below_spec bound check n :
  all_below bound check = true -> (n < bound)%nat -> check n = true.
Proof.
  unfold all_below. intros H Hn.
  apply (proj1 (forallb_forall check (seq 0 bound)) H), in_seq. lia.
Qed.



(** *** Termination of the recursion *)

Lemma factorial_stops fuel n :
  stops n = true ->
  factorial (S fuel) n = Some (if n <? 0 then nan else 1).
Proof.
  unfold stops. intros H. cbn.
  destruct (n <? 0); [reflexivity|]. cbn in H. now rewrite H.
Qed.





(** *** The depth of the recursion *)















(** *** The values of the factorial *)





(** *** The binomial loop *)

(** The loop counter: [i++] steps through the whole numbers, which compare
    as they should. *)
Lemma counter_end k :
  (Z.of_nat k < 2 ^ 53)%Z -> (of_nat k <? of_nat k) = false.
Proof.
  intros Hk. pose proof scale_pos as HS.
  rewrite (ltb_value _ _ _ _ (of_nat_value k Hk) (of_nat_value k Hk)) by nia.
  apply Z.ltb_irrefl.
Qed.

Lemma counter_step i k :
  (i < k)%nat -> (Z.of_nat k < 2 ^ 53)%Z ->
  (of_nat i <? of_nat k) = true /\ of_nat i + 1 = of_nat (S i).
Proof.
  intros Hi Hk. pose proof scale_pos as HS.
  assert (Hi' : (Z.of_nat i < 2 ^ 53)%Z) by lia.
  assert (HSi : (Z.of_nat (S i) < 2 ^ 53)%Z) by lia.
  split.
  - rewrite (ltb_value _ _ _ _ (of_nat_value i Hi') (of_nat_value k Hk)) by nia.
    apply Z.ltb_lt. nia.
  - apply (positive_value_unique _ _ (Z.of_nat (S i) * scale)).
    + rewrite Nat2Z.inj_succ. apply add_one_integer; [now apply of_nat_value|lia].
    + now apply of_nat_value.
    + nia.
Qed.

(** The loop multiplies out the product, from any counter [i <= k]. *)
Lemma binomial_loop_product (n : float) (k : nat) :
  (Z.of_nat k < 2 ^ 53)%Z ->
  forall d i b, (i + d = k)%nat ->
  binomial_loop (S d) n (of_nat k) (of_nat i) b
  = Some (fold_left (fun b i => (b * (n - of_nat i)) / (of_nat i + 1))
                    (seq i d) b).
Proof.
  intros Hk. induction d as [|d IH]; intros i b Hid.
  - replace i with k by lia. cbn. now rewrite (counter_end k Hk).
  - destruct (counter_step i k ltac:(lia) Hk) as [Hlt Hsucc].
    cbn [seq fold_left].
    set (b' := (b * (n - of_nat i)) / (of_nat i + 1)).
    rewrite <- (IH (S i) b') by lia.
    change (binomial_loop (S (S d)) n (of_nat k) (of_nat i) b)
      with (if of_nat i <? of_nat k
            then binomial_loop (S d) n (of_nat k) (of_nat i + 1) b'
            else Some b).
    now rewrite Hlt, Hsucc.
Qed.

Lemma binomial_exact_to_54 :
  all_below 55 (fun n => all_below (S n) (binomial_is n)) = true.
Proof. vm_compute. reflexivity. Qed.

(** C8, as the source has it: [binomial(n, k)] is 0 if [k > n] or [k < 0];
    otherwise 1 if [k == 0] or [k == n]; otherwise the product
    [prod_{i=0}^{k-1} (n-i)/(i+1)] multiplied out in binary64 from [i = 0];
    it is exactly [n! / (k! (n-k)!)] for [0 <= k <= n <= 54]. *)
Theorem binomial_contract :
  (forall fuel n k, (n <? k) || (k <? 0) = true ->
     binomial fuel n k = Some 0)
  /\ (forall fuel n k, (n <? k) || (k <? 0) = false ->
        (k =? 0) || (k =? n) = true -> binomial fuel n k = Some 1)
  /\ (forall (n : float) (k : nat), (Z.of_nat k < 2 ^ 53)%Z ->
        (n <? of_nat k) || (of_nat k <? 0) = false ->
        (of_nat k =? 0) || (of_nat k =? n) = false ->
        binomial (S k) n (of_nat k) = Some (binomial_product n k))
  /\ (forall n k : nat, (k <= n)%nat -> (n <= 54)%nat ->
        exists v, binomial (S k) (of_nat n) (of_nat k) = Some v
                  /\ exact_Z v = Some (choose n k)).
Proof.
  repeat split.
  - intros fuel n k H. unfold binomial. now rewrite H.
  - intros fuel n k H1 H2. unfold binomial. now rewrite H1, H2.
  - intros n k Hk H1 H2. unfold binomial. rewrite H1, H2.
    apply (binomial_loop_product n k Hk k 0%nat 1). lia.
  - intros n k Hkn Hn.
    pose proof (all_below_spec _ _ n binomial_exact_to_54 ltac:(lia)) as H.
    pose proof (all_below_spec _ _ k H ltac:(lia)) as H'.
    unfold binomial_is in H'.
    destruct (binomial (S k) (of_nat n) (of_nat k)) as [v|]; [|discriminate].
    exists v. split; [reflexivity|].
    destruct (exact_Z v) as [z|]; [|discriminate].
    f_equal. now apply Z.eqb_eq.
Qed.

Lemma binomial_contract_witness :
  (exists v, binomial 3 (of_nat 5) (of_nat 2) = Some v
             /\ exact_Z v = Some 10%Z)
  /\ binomial 0 5 6 = Some 0
  /\ binomial 0 5 0 = Some 1
  /\ binomial 4 7 (of_nat 3) = Some (binomial_product 7 3).
Proof.
  destruct binomial_contract as (H0 & H1 & Hprod & Hexact).
  split; [|split; [|split]].
  - apply (Hexact 5%nat 2%nat); lia.
  - apply H0. reflexivity.
  - apply H1; reflexivity.
  - apply (Hprod 7 3%nat); [lia|reflexivity|reflexivity].
Defined.

(** C8 fails as stated: [binomial(55, 26)] is the binary64 number
    3560597348629859.5, not the binomial coefficient 3560597348629860. *)
Lemma binomial_55_26_inexact :
  binomial 27 55 26 = Some 3560597348629859.5
  /\ choose 55 26 = 3560597348629860%Z
  /\ exact_Z 3560597348629859.5 = None
  /\ exact_Z 3560597348629860 = Some 3560597348629860%Z.
Proof. vm_compute. repeat split. Qed.

End CombinatoricsFacts.

(** ** Numeric helpers *)
Module HelpersFacts.

Import Num Helpers NumFacts.
Local Open Scope float_scope.

(** A positive number is not [== 0], and a number [<= 0] is not positive. *)
Lemma pos_not_zero a : (0 <? a) = true -> (a =? 0) = false.
Proof.
  rewrite FloatAxioms.eqb_spec, FloatAxioms.ltb_spec.
  change (Prim2SF 0) with (S754_zero false).
  unfold SFeqb, SFltb.
  destruct (Prim2SF a) as [s|s| |s m e]; cbn [SFcompare];
    try destruct s; intros H; try discriminate H; reflexivity.
Qed.

Lemma nonpos_not_pos a : (a <=? 0) = true -> (0 <? a) = false.
Proof.
  rewrite FloatAxioms.leb_spec, FloatAxioms.ltb_spec.
  change (Prim2SF 0) with (S754_zero false).
  unfold SFleb, SFltb.
  destruct (Prim2SF a) as [s|s| |s m e]; cbn [SFcompare];
    try destruct s; intros H; try discriminate H; reflexivity.
Qed.

(** The source's test [Math.floor(b) == b] holds of the finite numbers that
    are integers and of the infinities, and of no other number. *)
Lemma is_integer_spec b :
  is_integer b
  = match scaled b with
    | Some v => whole v
    | None => negb (isNaN b)
    end.
Proof.
  unfold is_integer, Math_floor, scaled, isNaN.
  rewrite !FloatAxioms.eqb_spec.
  destruct (Prim2SF b) as [s|s| |s m e] eqn:E.
  - rewrite E. destruct s; reflexivity.
  - rewrite E. destruct s; reflexivity.
  - rewrite E. reflexivity.
  - pose proof (Prim2SF_valid b) as V. rewrite E in V. cbn in V.
    destruct (bounded_exponent m e V) as [He Hm].
    destruct (0 <=? e)%Z eqn:He0.
    + (* an exponent that is not negative *)
      rewrite E, SFeqb_finite_refl. symmetry. apply whole_spec.
      apply Z.leb_le in He0. pose proof scale_pos as HS.
      replace (cond_Zopp s (Zpos m * 2 ^ (e + 1074)))
        with (cond_Zopp s (Zpos m * 2 ^ e) * scale)%Z
        by (unfold scale; rewrite Z.pow_add_r by lia;
            hide_power (2 ^ 1074)%Z; destruct s; cbn; lia).
      apply Z.mod_mul. lia.
    + apply Z.leb_gt in He0.
      set (k := (- e)%Z). assert (Hk : (0 < k)%Z) by (unfold k; lia).
      assert (EP : (scale = 2 ^ k * 2 ^ (e + 1074))%Z)
        by (unfold scale; rewrite <- Z.pow_add_r by lia; f_equal;
            unfold k; lia).
      pose proof scale_pos as HS.
      assert (HP : (0 < 2 ^ (e + 1074))%Z) by (apply Z.pow_pos_nonneg; lia).
      assert (HK : (0 < 2 ^ k)%Z) by (apply Z.pow_pos_nonneg; lia).
      destruct (Z.shiftl (Z.shiftr (Zpos m) k) k =? Zpos m)%Z eqn:Hdiv.
      * (* no bit below the unit *)
        rewrite E, SFeqb_finite_refl. symmetry. apply whole_spec.
        apply Z.eqb_eq in Hdiv.
        rewrite Z.shiftr_div_pow2, Z.shiftl_mul_pow2 in Hdiv by lia.
        rewrite EP, <- Hdiv.
        replace (cond_Zopp s (Zpos m / 2 ^ k * 2 ^ k * 2 ^ (e + 1074)))
          with (cond_Zopp s (Zpos m / 2 ^ k) * (2 ^ k * 2 ^ (e + 1074)))%Z
          by (destruct s; cbn; lia).
        apply Z.mod_mul. lia.
      * (* a fraction: its floor is another number *)
        pose proof (not_shifted m k Hk Hdiv) as Hnot.
        assert (Hw : whole (cond_Zopp s (Zpos m * 2 ^ (e + 1074))) = false).
        { apply not_true_iff_false. intros Hw. apply whole_spec in Hw.
          apply Z.mod_divide in Hw; [|lia].
          destruct Hw as [c Hc]. rewrite EP in Hc.
          apply (Hnot (if s then (- c)%Z else c)).
          destruct s; cbn in Hc; nia. }
        rewrite Hw.
        set (q := Z.shiftr (Zpos m) k).
        assert (Hq : (0 <= q /\ q * 2 ^ k <= Zpos m < (q + 1) * 2 ^ k)%Z).
        { unfold q. rewrite Z.shiftr_div_pow2 by lia.
          pose proof (Z.div_mod (Zpos m) (2 ^ k) ltac:(lia)).
          pose proof (Z.mod_pos_bound (Zpos m) (2 ^ k) ltac:(lia)).
          split; [apply Z.div_pos; lia|]. nia. }
        assert (Hq53 : (q + 1 <= 2 ^ 53)%Z) by nia.
        apply not_true_iff_false. intros Heq.
        destruct s.
        -- (* negative: the floor is -(q+1) *)
           destruct (q + 1)%Z as [|q1|q1] eqn:Eq1; try lia.
           assert (Hlt : (Zpos q1 < 2 ^ 53)%Z).
           { destruct (Z.eq_dec (Zpos q1) (2 ^ 53)%Z) as [E53|]; [|lia].
             exfalso. assert (2 ^ 53 * 2 ^ k <= 2 ^ 53 * 1)%Z by nia.
             assert (1 < 2 ^ k)%Z by (apply Z.pow_gt_1; lia). nia. }
           destruct (of_Z_pos_value q1 Hlt) as (m' & e' & Hp & Hv).
           change (of_Z (- Zpos q1)) with (- of_Z (Zpos q1)) in Heq.
           rewrite opp_spec, Hp in Heq. cbn [SFopp negb] in Heq.
           apply SFeqb_finite in Heq as (_ & -> & ->).
           apply (Hnot (Zpos q1)). fold scale in Hv. rewrite EP in Hv. nia.
        -- (* positive: the floor is q *)
           destruct q as [|q1|q1] eqn:Eq1; try lia.
           ++ change (of_Z 0) with 0 in Heq.
              change (Prim2SF 0) with (S754_zero false) in Heq. discriminate.
           ++ destruct (of_Z_pos_value q1 ltac:(lia)) as (m' & e' & Hp & Hv).
              rewrite Hp in Heq.
              apply SFeqb_finite in Heq as (_ & -> & ->).
              apply (Hnot (Zpos q1)). fold scale in Hv. rewrite EP in Hv. nia.
Qed.

(** An integer passes the test, a fraction does not. *)
Lemma integer_is_integer b z : exact_Z b = Some z -> is_integer b = true.
Proof.
  rewrite is_integer_spec. unfold exact_Z.
  destruct (scaled b) as [v|]; [|discriminate].
  destruct (whole v); [reflexivity|discriminate].
Qed.

Lemma fraction_not_integer b : fractional b = true -> is_integer b = false.
Proof.
  rewrite is_integer_spec. unfold fractional.
  destruct (scaled b) as [v|]; [|discriminate].
  now intros H%negb_true_iff.
Qed.

(** C7: the contract of [pow], case by case in the order the source tests:
    [a == 0] gives 1 for [b == 0] and 0 for every other [b]; for [a != 0],
    an integer [b] gives [Math.pow(a, b)], and a [b] that is not an integer
    gives [exp(b * ln(a))] when [a > 0] and NaN when [a <= 0]. *)
Theorem pow_contract (Math_pow : float -> float -> float)
        (Math_exp Math_log : float -> float) (a b : float) :
  let pow := pow Math_pow Math_exp Math_log in
  ((a =? 0) = true -> (b =? 0) = true -> pow a b = 1)
  /\ ((a =? 0) = true -> (b =? 0) = false -> pow a b = 0)
  /\ ((a =? 0) = false -> is_Some (exact_Z b) -> pow a b = Math_pow a b)
  /\ (fractional b = true -> (0 <? a) = true ->
      pow a b = Math_exp (b * Math_log a))
  /\ (fractional b = true -> (a <=? 0) = true -> (a =? 0) = false ->
      pow a b = nan).
Proof.
  unfold pow. cbv zeta. repeat split.
  - intros -> ->. reflexivity.
  - intros -> ->. reflexivity.
  - intros -> [z Hz]. fold (is_integer b).
    now rewrite (integer_is_integer b z Hz).
  - intros Hb Ha. fold (is_integer b).
    rewrite (pos_not_zero _ Ha), (fraction_not_integer b Hb), Ha.
    now rewrite (abs_of_pos _ Ha).
  - intros Hb Ha H0. fold (is_integer b).
    rewrite H0, (fraction_not_integer b Hb). now rewrite (nonpos_not_pos _ Ha).
Qed.

(** The edge cases the specification lists: [pow(0,0) == 1],
    [pow(0,3) == 0], [pow(2,3)] is [Math.pow(2,3)], [pow(-2,0.5)] is NaN. *)
Lemma pow_contract_witness :
  (forall Math_pow Math_exp Math_log, pow Math_pow Math_exp Math_log 0 0 = 1)
  /\ (forall Math_pow Math_exp Math_log, pow Math_pow Math_exp Math_log 0 3 = 0)
  /\ (forall Math_pow Math_exp Math_log,
        pow Math_pow Math_exp Math_log 2 3 = Math_pow 2 3)
  /\ (forall Math_pow Math_exp Math_log,
        pow Math_pow Math_exp Math_log (-2) 0.5 = nan).
Proof.
  split; [|split; [|split]]; intros Math_pow Math_exp Math_log.
  - apply (pow_contract Math_pow Math_exp Math_log 0 0); reflexivity.
  - apply (pow_contract Math_pow Math_exp Math_log 0 3); reflexivity.
  - apply (pow_contract Math_pow Math_exp Math_log 2 3);
      [reflexivity | now exists 3%Z].
  - apply (pow_contract Math_pow Math_exp Math_log (-2) 0.5); reflexivity.
Defined.

End HelpersFacts.

(** ** The memoizer *)
Module MemoFacts.

Import JS Memo.

Section Host.

Variable numToString : float -> string.
Variable refToString : nat -> string.
Variable Object_prototype : string -> jsval.

Local Abbreviation join := (Memo.join numToString refToString).
Local Abbreviation call := (Memo.call numToString refToString Object_prototype).
Local Abbreviation run := (Memo.run numToString refToString Object_prototype).
Local Abbreviation consistent := (Memo.consistent numToString refToString).

(** [memo = JXG.memoizer(g)] creates the wrapper and records it in [g.memo]. *)
Lemma memoizer_first g : memoizer (initial g) 0 = Some (wrapped g, 1%nat).
Proof. reflexivity. Qed.

Lemma consistent_wrapped g : consistent g [] (wrapped g).
Proof.
  exists ∅. repeat split.
  - intros key v H. now rewrite lookup_empty in H.
  - cbn in H. now apply elem_of_nil in H.
  - cbn in H. now apply elem_of_nil in H.
  - intros a H. cbn in H. now apply elem_of_nil in H.
  - intros _. cbn. constructor.
Qed.

(** Once [g.memo] is set, [JXG.memoizer(g)] returns it and changes nothing. *)
Lemma memoizer_again g seen h :
  consistent g seen h -> memoizer h 0 = Some (h, 1%nat).
Proof.
  intros (cache & Hf & _). unfold memoizer. now rewrite Hf.
Qed.

Lemma evaluated_snoc f f' ev args :
  evaluated 0 (Heap f (ev ++ [(0%nat, args)]))
  = evaluated 0 (Heap f' ev) ++ [args].
Proof.
  unfold evaluated. cbn [evals].
  now rewrite List.filter_app, map_app.
Qed.

(** One call of the wrapper. *)
Lemma call_consistent g seen h args :
  consistent g seen h ->
  exists v h',
    call 2 h 1 args = Some (v, h')
    /\ consistent g (seen ++ [args]) h'
    /\ ((forall a, a ∈ seen -> join a = join args -> g a = g args) ->
        Object_prototype (join args) = JUndef -> v = g args).
Proof.
  intros (cache & Hf & Hcache & Hev & Hkeys & Hnodup).
  destruct h as [fs ev]. cbn [funs evals] in *. subst fs.
  set (fs := [Fobj (Source g) (Some 1%nat); Fobj (Memoized 0 cache) None]) in *.
  cbn [Memo.call funs]. subst fs. cbn [lookup list_lookup body].
  set (fs := [Fobj (Source g) (Some 1%nat); Fobj (Memoized 0 cache) None]) in *.
  destruct (defined (cache_get Object_prototype cache (join args))) eqn:Hdef.
  - (* the key is in the cache, or inherited *)
    eexists _, _. split; [reflexivity|]. split.
    + exists cache. repeat split.
      * intros key v Hkv. destruct (Hcache key v Hkv) as (a & Ha & Hj & Hg).
        exists a. rewrite elem_of_app. auto.
      * now apply Hev.
      * rewrite elem_of_app. left. now apply Hev.
      * exact Hkeys.
      * intros Hd. apply Hnodup. intros a Ha. apply Hd.
        rewrite elem_of_app. auto.
    + intros Hsame Hproto. unfold cache_get in *.
      destruct (cache !! join args) as [v|] eqn:Hkv.
      * destruct (Hcache _ _ Hkv) as (a & Ha & Hj & Hg).
        rewrite <- Hg. now apply Hsame.
      * rewrite Hproto in Hdef. discriminate.
  - (* a miss: [g] is evaluated and the result stored *)
    cbn [evals funs]. unfold cache_set. subst fs.
    cbn [funs lookup list_lookup evals insert list_insert].
    set (fs := [Fobj (Source g) (Some 1%nat); Fobj (Memoized 0 cache) None]) in *.
    eexists _, _. split; [reflexivity|]. split; [|reflexivity].
    exists (<[join args := g args]> cache).
    split; [reflexivity|]. split; [|split; [|split]].
    + intros key v Hkv.
      destruct (decide (join args = key)) as [<-|Hne].
      * rewrite lookup_insert_eq in Hkv. injection Hkv as <-.
        exists args. rewrite elem_of_app, list_elem_of_singleton. auto.
      * rewrite lookup_insert_ne in Hkv by exact Hne.
        destruct (Hcache key v Hkv) as (a & Ha & Hj & Hg).
        exists a. rewrite elem_of_app. auto.
    + intros e He. cbn [evals] in He. rewrite elem_of_app in He.
      rewrite elem_of_app. destruct He as [He|He].
      * destruct (Hev e He). auto.
      * apply list_elem_of_singleton in He. subst e. cbn.
        rewrite list_elem_of_singleton. auto.
    + intros a Ha.
      rewrite (evaluated_snoc _ fs) in Ha. rewrite elem_of_app in Ha.
      destruct (decide (join args = join a)) as [E|Hne].
      * rewrite <- E, lookup_insert_eq. eauto.
      * rewrite lookup_insert_ne by exact Hne.
        destruct Ha as [Ha|Ha]; [now apply Hkeys|].
        apply list_elem_of_singleton in Ha. now subst a.
    + intros Hd. rewrite (evaluated_snoc _ fs), map_app.
      apply NoDup_app. split; [|split].
      * apply Hnodup. intros a Ha. apply Hd. rewrite elem_of_app. auto.
      * intros key Hin Hnew. cbn in Hnew.
        apply list_elem_of_singleton in Hnew. subst key.
        apply list_elem_of_fmap in Hin as (a & Hj & Ha).
        destruct (Hkeys a Ha) as [v Hkv]. rewrite <- Hj in Hkv.
        destruct (Hcache _ _ Hkv) as (a' & Ha' & _ & Hg).
        unfold cache_get in Hdef. rewrite Hkv, <- Hg in Hdef.
        rewrite Hd in Hdef; [discriminate|]. rewrite elem_of_app. auto.
      * cbn. apply NoDup_singleton.
Qed.

(** A series of calls of the wrapper. *)
Lemma run_consistent g calls :
  forall seen h,
    consistent g seen h ->
    exists vs h',
      run 1 h calls = Some (vs, h')
      /\ consistent g (seen ++ calls) h'
      /\ ((forall a b, a ∈ seen ++ calls -> b ∈ seen ++ calls ->
             join a = join b -> g a = g b) ->
          (forall a, a ∈ calls -> Object_prototype (join a) = JUndef) ->
          vs = map g calls).
Proof.
  induction calls as [|args rest IH]; intros seen h Hc.
  - exists [], h. rewrite app_nil_r. auto.
  - destruct (call_consistent g seen h args Hc) as (v & h1 & Hcall & Hc1 & Hv).
    destruct (IH (seen ++ [args]) h1 Hc1) as (vs & h2 & Hrun & Hc2 & Hvs).
    rewrite <- app_assoc in Hc2, Hvs. cbn [app] in Hc2, Hvs.
    exists (v :: vs), h2. cbn [Memo.run]. rewrite Hcall, Hrun.
    split; [reflexivity|]. split; [exact Hc2|].
    intros Hsame Hproto. cbn [map]. f_equal.
    + apply Hv.
      * intros a Ha. apply Hsame; rewrite elem_of_app, elem_of_cons; auto.
      * apply Hproto. now left.
    + apply Hvs; [exact Hsame|].
      intros a Ha. apply Hproto. now right.
Qed.

(** C6, as the source has it.  After [memo = JXG.memoizer(g)], every series
    of calls of [memo] returns; the results are those of [g] when calls
    whose arguments join to the same key have the same result under [g] and
    no key names a property the cache object inherits; [g] is evaluated on
    arguments that were passed only, and at most once per key when none of
    its results is [undefined]; and [JXG.memoizer(g)], applied again at any
    time, returns the same wrapper and changes nothing. *)
Theorem memoizer_contract (g : list jsval -> jsval)
        (calls : list (list jsval)) :
  memoizer (initial g) 0 = Some (wrapped g, 1%nat)
  /\ exists vs h,
       run 1 (wrapped g) calls = Some (vs, h)
       /\ ((forall a b, a ∈ calls -> b ∈ calls ->
              join a = join b -> g a = g b) ->
           (forall a, a ∈ calls -> Object_prototype (join a) = JUndef) ->
           vs = map g calls)
       /\ (forall a, a ∈ evaluated 0 h -> a ∈ calls)
       /\ ((forall a, a ∈ calls -> defined (g a) = true) ->
           NoDup (map join (evaluated 0 h)))
       /\ memoizer h 0 = Some (h, 1%nat).
Proof.
  split; [reflexivity|].
  destruct (run_consistent g calls [] (wrapped g) (consistent_wrapped g))
    as (vs & h & Hrun & Hc & Hvs).
  cbn [app] in Hc, Hvs.
  exists vs, h. split; [exact Hrun|]. split; [exact Hvs|].
  split; [|split].
  - destruct Hc as (cache & _ & _ & Hev & _).
    intros a Ha. unfold evaluated in Ha.
    apply list_elem_of_fmap in Ha as (e & -> & He).
    apply list_elem_of_In, filter_In in He as [He _].
    apply list_elem_of_In in He. now apply Hev.
  - destruct Hc as (cache & _ & _ & _ & _ & Hnodup). exact Hnodup.
  - exact (memoizer_again g calls h Hc).
Qed.

End Host.

(** On the arguments [("x")], then [("x")] again, then [("y")], a wrapped
    function that counts its arguments is evaluated twice and the wrapper
    returns its results. *)
Lemma memoizer_contract_witness :
  exists vs h,
    run never_printed_number never_printed_ref bare_prototype 1
        (wrapped count_args) [[JStr "x"]; [JStr "x"]; [JStr "y"]]
    = Some (vs, h)
    /\ vs = map count_args [[JStr "x"]; [JStr "x"]; [JStr "y"]]
    /\ NoDup (map (join never_printed_number never_printed_ref)
                  (evaluated 0 h)).
Proof.
  destruct (memoizer_contract never_printed_number never_printed_ref
              bare_prototype count_args
              [[JStr "x"]; [JStr "x"]; [JStr "y"]])
    as (_ & vs & h & Hrun & Hvs & _ & Hnodup & _).
  exists vs, h. split; [exact Hrun|]. split.
  - apply Hvs; [|reflexivity].
    assert (La : forall c, c ∈ [[JStr "x"]; [JStr "x"]; [JStr "y"]] ->
                           count_args c = JNum 1).
    { intros c Hc. repeat (apply elem_of_cons in Hc as [->|Hc]; [reflexivity|]).
      now apply elem_of_nil in Hc. }
    intros a b Ha Hb _. now rewrite (La a Ha), (La b Hb).
  - apply Hnodup. reflexivity.
Defined.

(** C6 fails as stated.  The argument tuples [("a,b")] and [("a", "b")] join
    to the same key, so after [memo("a,b")] the call [memo("a", "b")]
    returns the cached 1 where the wrapped function returns 2.  A wrapped
    function that returns [undefined] is evaluated again on every call with
    the same arguments.  And the memoizer applied to the wrapper itself
    builds a second closure around it. *)
Lemma memoizer_collision_and_reevaluation :
  (forall numToString refToString,
     option_map fst
       (run numToString refToString bare_prototype 1 (wrapped count_args)
            [[JStr "a,b"]; [JStr "a"; JStr "b"]])
     = Some [JNum 1; JNum 1])
  /\ count_args [JStr "a"; JStr "b"] = JNum 2
  /\ (forall numToString refToString,
        option_map (fun r => evaluated 0 (snd r))
          (run numToString refToString bare_prototype 1 (wrapped no_result)
               [[JStr "x"]; [JStr "x"]])
        = Some [[JStr "x"]; [JStr "x"]])
  /\ option_map snd (memoizer (wrapped count_args) 1) = Some 2%nat.
Proof.
  split; [|split; [|split]].
  - intros. vm_compute. reflexivity.
  - reflexivity.
  - intros. vm_compute. reflexivity.
  - reflexivity.
Qed.

End MemoFacts.

(** ** Binary64 arithmetic: symmetries, NaN and the zeros *)
Module NumAlgebra.

Import Num NumFacts.
Local Open Scope float_scope.

(** *** Sign symmetry of rounding *)

(** Rounding does not look at the sign: the rounded number of the other
    sign is the opposite. *)
Lemma round_aux_opp sx mx ex lx :
  binary_round_aux prec emax (negb sx) mx ex lx
  = SFopp (binary_round_aux prec emax sx mx ex lx).
Proof.
  unfold binary_round_aux.
  destruct (shr_fexp prec emax mx ex lx) as [mrs e'].
  destruct (shr_fexp prec emax _ e' loc_Exact) as [mrs' e''].
  destruct (shr_m mrs'); [reflexivity| |reflexivity].
  destruct (e'' <=? emax - prec)%Z; reflexivity.
Qed.

Lemma binary_round_opp sx mx ex :
  binary_round prec emax (negb sx) mx ex
  = SFopp (binary_round prec emax sx mx ex).
Proof.
  unfold binary_round. destruct (shl_align _ _ _) as [mz ez].
  apply round_aux_opp.
Qed.

Lemma binary_normalize_opp z e :
  z <> 0%Z ->
  binary_normalize prec emax (- z) e false
  = SFopp (binary_normalize prec emax z e false).
Proof.
  destruct z as [|p|p]; intros H; [contradiction| |];
    cbn [Z.opp binary_normalize].
  - apply (binary_round_opp false).
  - exact (binary_round_opp true p e).
Qed.

(** *** Sums, products and differences *)

Lemma add_comm x y : x + y = y + x.
Proof.
  apply Prim2SF_inj. rewrite !add_spec.
  destruct (Prim2SF x) as [sx|sx| |sx mx ex],
           (Prim2SF y) as [sy|sy| |sy my ey];
    try reflexivity; try (destruct sx, sy; reflexivity).
  unfold SF64add, SFadd. rewrite (Z.min_comm ey ex), Z.add_comm. reflexivity.
Qed.

Lemma mul_comm x y : x * y = y * x.
Proof.
  apply Prim2SF_inj. rewrite !mul_spec.
  destruct (Prim2SF x) as [sx|sx| |sx mx ex],
           (Prim2SF y) as [sy|sy| |sy my ey];
    try reflexivity; try (destruct sx, sy; reflexivity).
  unfold SF64mul, SFmul.
  rewrite (xorb_comm sy sx), (Pos.mul_comm my mx), (Z.add_comm ey ex).
  reflexivity.
Qed.

(** [y - x] is [-(x - y)], except that both are [+0] when the difference
    is zero. *)
Lemma sub_swap x y : y - x = - (x - y) \/ (x - y = 0 /\ y - x = 0).
Proof.
  assert (H : SF64sub (Prim2SF y) (Prim2SF x)
              = SFopp (SF64sub (Prim2SF x) (Prim2SF y))
              \/ (SF64sub (Prim2SF x) (Prim2SF y) = S754_zero false
                  /\ SF64sub (Prim2SF y) (Prim2SF x) = S754_zero false)).
  { destruct (Prim2SF x) as [sx|sx| |sx mx ex],
             (Prim2SF y) as [sy|sy| |sy my ey];
      try (left; reflexivity);
      try (destruct sx, sy;
           (left; reflexivity) || (right; split; reflexivity)).
    unfold SF64sub, SFsub. rewrite (Z.min_comm ey ex).
    set (X := cond_Zopp sx _). set (Y := cond_Zopp sy _).
    destruct (Z.eq_dec (X - Y)%Z 0%Z) as [E|N].
    - right. replace (Y - X)%Z with 0%Z by lia. rewrite E.
      split; reflexivity.
    - left. replace (Y - X)%Z with (- (X - Y))%Z by lia.
      now apply binary_normalize_opp. }
  destruct H as [H|[H1 H2]].
  - left. apply Prim2SF_inj. now rewrite opp_spec, !sub_spec.
  - right. split; apply Prim2SF_inj; rewrite sub_spec; assumption.
Qed.

Lemma mul_opp_l x y : (- x) * y = - (x * y).
Proof.
  apply Prim2SF_inj. rewrite opp_spec, !mul_spec, opp_spec.
  destruct (Prim2SF x) as [sx|sx| |sx mx ex],
           (Prim2SF y) as [sy|sy| |sy my ey];
    try reflexivity; try (destruct sx, sy; reflexivity).
  unfold SF64mul, SFmul, SFopp at 1.
  replace (xorb (negb sx) sy) with (negb (xorb sx sy))
    by (destruct sx, sy; reflexivity).
  apply round_aux_opp.
Qed.

(** A number minus itself is [+0], or NaN when the number is not finite. *)
Lemma sub_diag x : x - x = 0 \/ x - x = nan.
Proof.
  assert (H : SF64sub (Prim2SF x) (Prim2SF x) = S754_zero false
              \/ SF64sub (Prim2SF x) (Prim2SF x) = S754_nan).
  { destruct (Prim2SF x) as [s|s| |s m e].
    - left. destruct s; reflexivity.
    - right. destruct s; reflexivity.
    - right. reflexivity.
    - left. unfold SF64sub, SFsub. now rewrite Z.sub_diag. }
  destruct H as [H|H]; [left|right]; apply Prim2SF_inj; now rewrite sub_spec.
Qed.

Lemma sub_zero_r x : x - 0 = x.
Proof.
  apply Prim2SF_inj. rewrite sub_spec.
  change (Prim2SF 0) with (S754_zero false).
  destruct (Prim2SF x) as [s|s| |s m e]; try reflexivity.
  destruct s; reflexivity.
Qed.

(** *** NaN *)

Lemma add_nan_l x : nan + x = nan.
Proof. apply Prim2SF_inj. rewrite add_spec. reflexivity. Qed.

Lemma add_nan_r x : x + nan = nan.
Proof. now rewrite add_comm, add_nan_l. Qed.

Lemma mul_nan_l x : nan * x = nan.
Proof. apply Prim2SF_inj. rewrite mul_spec. reflexivity. Qed.

Lemma ltb_nan x : (x <? nan) = false.
Proof.
  rewrite FloatAxioms.ltb_spec. change (Prim2SF nan) with S754_nan.
  unfold SFltb. destruct (Prim2SF x); reflexivity.
Qed.

Lemma eqb_nan x : (nan =? x) = false.
Proof. rewrite FloatAxioms.eqb_spec. reflexivity. Qed.

Lemma isNaN_false r : isNaN r = false -> Prim2SF r <> S754_nan.
Proof.
  unfold isNaN. rewrite FloatAxioms.eqb_spec. intros H E. rewrite E in H.
  discriminate H.
Qed.

(** *** The zeros *)

(** Adding a zero changes no number but [-0]. *)
Lemma add_zero_r x z : is_zero z -> x <> neg_zero -> x + z = x.
Proof.
  intros Hz Hx. rewrite add_comm. destruct Hz as [->| ->].
  - now apply add_zero_l.
  - apply KernelFacts.add_neg_zero_l.
Qed.

Lemma finite_cases y :
  isFinite y = true ->
  (exists s, Prim2SF y = S754_zero s)
  \/ (exists s m e, Prim2SF y = S754_finite s m e).
Proof.
  unfold isFinite, isNaN. rewrite !FloatAxioms.eqb_spec.
  change (Prim2SF infinity) with (S754_infinity false).
  change (Prim2SF neg_infinity) with (S754_infinity true).
  destruct (Prim2SF y) as [s|s| |s m e]; intros H.
  - left. now exists s.
  - destruct s; discriminate H.
  - discriminate H.
  - right. now exists s, m, e.
Qed.

Lemma zero_of_sign x s : Prim2SF x = S754_zero s -> is_zero x.
Proof.
  intros H. destruct s; [right|left]; apply Prim2SF_inj; now rewrite H.
Qed.

(** 0 times a finite number is a zero. *)
Lemma mul_zero_finite y : isFinite y = true -> is_zero (0 * y).
Proof.
  intros H. assert (E : exists s, Prim2SF (0 * y) = S754_zero s).
  { rewrite mul_spec. change (Prim2SF 0) with (S754_zero false).
    destruct (finite_cases y H) as [[s ->]|(s & m & e & ->)];
      eexists; reflexivity. }
  destruct E as [s E]. exact (zero_of_sign _ _ E).
Qed.

Lemma add_zeros z z' : is_zero z -> is_zero z' -> is_zero (z + z').
Proof.
  intros [->| ->] [->| ->]; [left|left|left|right]; reflexivity.
Qed.

Lemma zero_add z x : is_zero z -> same_or_zeros (z + x) x.
Proof.
  intros [->| ->].
  - destruct (float_eq_dec x neg_zero) as [->|N].
    + right. split; [left; reflexivity|right; reflexivity].
    + left. now apply add_zero_l.
  - left. apply KernelFacts.add_neg_zero_l.
Qed.

Lemma same_add_zero s x z :
  same_or_zeros s x -> is_zero z -> same_or_zeros (s + z) x.
Proof.
  intros [->|[Hs Hx]] Hz.
  - destruct (float_eq_dec x neg_zero) as [->|N].
    + right. split; [|right; reflexivity].
      rewrite KernelFacts.add_neg_zero_l. exact Hz.
    + left. now apply add_zero_r.
  - right. split; [now apply add_zeros|exact Hx].
Qed.

Lemma same_or_zeros_eqb s x :
  same_or_zeros s x -> isFinite x = true -> (s =? x) = true.
Proof.
  intros [->|[[->| ->] [->| ->]]] H; try reflexivity.
  unfold isFinite, isNaN in H.
  destruct (x =? x); [reflexivity|discriminate H].
Qed.

(** *** Order *)

(** Comparing the other way round gives the opposite answer. *)
Lemma SFcompare_swap x y :
  SFcompare y x = option_map CompOpp (SFcompare x y).
Proof.
  destruct x as [sx|sx| |sx mx ex], y as [sy|sy| |sy my ey];
    try reflexivity; try (destruct sx; reflexivity);
    try (destruct sy; reflexivity); try (destruct sx, sy; reflexivity).
  cbn [SFcompare option_map].
  rewrite (Z.compare_antisym ex ey).
  assert (P : PosDef.Pos.compare_cont Eq my mx
              = CompOpp (PosDef.Pos.compare_cont Eq mx my))
    by (symmetry; exact (Pos.compare_cont_antisym mx my Eq)).
  rewrite P.
  destruct sx, sy; try reflexivity;
    destruct (ex ?= ey)%Z; cbn; reflexivity.
Qed.

Lemma ltb_asym x y : (x <? y) = true -> (y <? x) = false.
Proof.
  rewrite !FloatAxioms.ltb_spec. unfold SFltb.
  rewrite (SFcompare_swap (Prim2SF x) (Prim2SF y)).
  destruct (SFcompare (Prim2SF x) (Prim2SF y)) as [[]|]; cbn; congruence.
Qed.

Lemma ltb_not_eqb x y :
  (x <? y) = true -> (x =? y) = false /\ (y =? x) = false.
Proof.
  rewrite !FloatAxioms.ltb_spec, !FloatAxioms.eqb_spec. unfold SFltb, SFeqb.
  rewrite (SFcompare_swap (Prim2SF x) (Prim2SF y)).
  destruct (SFcompare (Prim2SF x) (Prim2SF y)) as [[]|]; cbn; intros H;
    try discriminate H; split; reflexivity.
Qed.

(** *** Division by a zero and by an infinity *)

Lemma div_neg_zero k : (k <? 0) = true -> k / 0 = neg_infinity.
Proof.
  rewrite FloatAxioms.ltb_spec. change (Prim2SF 0) with (S754_zero false).
  intros H. apply Prim2SF_inj. rewrite div_spec.
  change (Prim2SF 0) with (S754_zero false).
  change (Prim2SF neg_infinity) with (S754_infinity true).
  destruct (Prim2SF k) as [s|s| |s m e]; try discriminate;
    destruct s; try discriminate; reflexivity.
Qed.

Lemma sub_infinity_div t : (t - infinity) / neg_infinity = nan.
Proof.
  apply Prim2SF_inj. rewrite div_spec, sub_spec.
  change (Prim2SF infinity) with (S754_infinity false).
  change (Prim2SF neg_infinity) with (S754_infinity true).
  destruct (Prim2SF t) as [s|s| |s m e]; try reflexivity;
    destruct s; reflexivity.
Qed.

Lemma div_zero_div_infinity x : (- (x / 0)) / neg_infinity = nan.
Proof.
  apply Prim2SF_inj. rewrite div_spec, opp_spec, div_spec.
  change (Prim2SF 0) with (S754_zero false).
  change (Prim2SF neg_infinity) with (S754_infinity true).
  destruct (Prim2SF x) as [s|s| |s m e]; try reflexivity;
    destruct s; reflexivity.
Qed.

End NumAlgebra.

(** ** Vectors: [matVecMult], [innerProduct], [crossProduct] *)
Module VectorFacts.

Import JS Num Kernel NumFacts KernelFacts NumAlgebra.
Local Open Scope float_scope.

(** *** Sums accumulated by a loop *)

Lemma fold_add_ext (f g : nat -> float) l s :
  (forall k, In k l -> f k = g k) ->
  fold_left (fun s k => s + f k) l s = fold_left (fun s k => s + g k) l s.
Proof.
  revert s. induction l as [|k l IH]; intros s H; [reflexivity|].
  cbn [fold_left]. rewrite (H k) by now left.
  apply IH. intros k' Hk'. apply H. now right.
Qed.

Lemma fold_add_nan (f : nat -> float) l :
  fold_left (fun s k => s + f k) l nan = nan.
Proof.
  induction l as [|k l IH]; [reflexivity|].
  cbn [fold_left]. now rewrite add_nan_l.
Qed.

(** A sum that meets a NaN term is NaN. *)
Lemma fold_add_meets_nan (f : nat -> float) (n k : nat) (s : float) :
  (k < n)%nat -> f k = nan ->
  fold_left (fun s k => s + f k) (seq 0 n) s = nan.
Proof.
  intros Hk Hf.
  replace n with (k + S (n - S k))%nat by lia.
  rewrite seq_app, fold_left_app. cbn [seq fold_left Nat.add].
  rewrite Hf, add_nan_r. apply fold_add_nan.
Qed.

Lemma fold_zeros (f : nat -> float) l s :
  (forall k, In k l -> is_zero (f k)) -> is_zero s ->
  is_zero (fold_left (fun s k => s + f k) l s).
Proof.
  revert s. induction l as [|k l IH]; intros s H Hs; [exact Hs|].
  cbn [fold_left]. apply IH.
  - intros k' Hk'. apply H. now right.
  - apply add_zeros; [exact Hs|]. apply H. now left.
Qed.

Lemma fold_same (f : nat -> float) l s x :
  (forall k, In k l -> is_zero (f k)) -> same_or_zeros s x ->
  same_or_zeros (fold_left (fun s k => s + f k) l s) x.
Proof.
  revert s. induction l as [|k l IH]; intros s H Hs; [exact Hs|].
  cbn [fold_left]. apply IH.
  - intros k' Hk'. apply H. now right.
  - apply same_add_zero; [exact Hs|]. apply H. now left.
Qed.

(** A sum whose terms are zeros but for the term [x] at index [i]. *)
Lemma fold_one_term (f : nat -> float) (n i : nat) (x : float) :
  (i < n)%nat -> f i = x ->
  (forall k, (k < n)%nat -> k <> i -> is_zero (f k)) ->
  same_or_zeros (fold_left (fun s k => s + f k) (seq 0 n) 0) x.
Proof.
  intros Hi Hx Hz.
  replace n with (i + S (n - S i))%nat by lia.
  rewrite seq_app, fold_left_app. cbn [seq fold_left Nat.add].
  apply fold_same.
  - intros k Hk. apply in_seq in Hk. apply Hz; lia.
  - rewrite Hx. apply zero_add. apply fold_zeros; [|left; reflexivity].
    intros k Hk. apply in_seq in Hk. apply Hz; lia.
Qed.

(** *** Reading past the end of an array *)

Lemma num_at_past (a : list float) i :
  (length a <= i)%nat -> num_at a i = nan.
Proof. intros H. unfold num_at. now apply nth_overflow. Qed.

Lemma accumulate_short row vec :
  (length row < length vec)%nat -> accumulate row vec (length vec) = nan.
Proof.
  intros H. unfold accumulate.
  apply (fold_add_meets_nan (fun k => num_at row k * num_at vec k)
           _ (length row) 0 H).
  rewrite num_at_past by lia. apply mul_nan_l.
Qed.

Lemma unrolled_short row vec :
  (length row < 3)%nat -> unrolled row vec = nan.
Proof.
  intros H. unfold unrolled.
  rewrite (num_at_past row 2) by lia. now rewrite mul_nan_l, add_nan_r.
Qed.

(** *** [matVecMult] *)

Lemma matVecMult_length mat vec : length (matVecMult mat vec) = length mat.
Proof.
  unfold matVecMult, matVecMult_general.
  destruct (length vec =? 3)%nat; rewrite each_row_map; apply length_map.
Qed.

(** X1: [matVecMult(mat, vec)] has one entry for each row of [mat],
    whatever the lengths of the rows and of [vec] are; on the empty vector
    every entry is the [+0] the loop starts from. *)
Theorem matVecMult_shape (mat : list (list float)) (vec : list float) :
  length (matVecMult mat vec) = length mat
  /\ matVecMult mat [] = replicate (length mat) 0.
Proof.
  split; [apply matVecMult_length|].
  unfold matVecMult, matVecMult_general. cbn [length Nat.eqb].
  rewrite each_row_map. induction mat as [|row mat IH]; [reflexivity|].
  cbn [map length replicate]. now rewrite IH.
Qed.

(** X2: the dimensions are not checked: where a row of [mat] has fewer
    entries than [vec], the missing entries read as [undefined] and the
    result's entry for that row is NaN, on both paths. *)
Theorem matVecMult_short_row (mat : list (list float)) (vec : list float)
        (i : nat) (row : list float) :
  mat !! i = Some row -> (length row < length vec)%nat ->
  matVecMult mat vec !! i = Some nan.
Proof.
  intros Hi Hlen. unfold matVecMult, matVecMult_general.
  destruct (length vec =? 3)%nat eqn:E; rewrite each_row_map;
    change (map ?f mat) with (f <$> mat);
    rewrite list_lookup_fmap, Hi; cbn; f_equal.
  - apply Nat.eqb_eq in E. apply unrolled_short. lia.
  - now apply accumulate_short.
Qed.

Lemma matVecMult_short_row_witness :
  matVecMult [[1; 2; 3]; [4; 5]] [1; 1; 1] !! 1%nat = Some nan.
Proof.
  apply (matVecMult_short_row _ _ 1%nat [4; 5]); [reflexivity|cbn; lia].
Defined.

(** X3: each entry of [matVecMult(mat, vec)] is the inner product of a row
    with [vec] over [vec.length] terms: bit for bit when [vec.length] is
    not 3, and up to the sign of a zero result on the unrolled path. *)
Theorem matVecMult_by_innerProduct (mat : list (list float))
        (vec : list float) :
  (length vec <> 3%nat ->
   matVecMult mat vec
   = map (fun row => innerProduct row vec (Some (length vec))) mat)
  /\ Forall2 same_or_zero_sign
       (matVecMult mat vec)
       (map (fun row => innerProduct row vec (Some (length vec))) mat).
Proof.
  assert (G : matVecMult_general mat vec
              = map (fun row => innerProduct row vec (Some (length vec))) mat).
  { unfold matVecMult_general. now rewrite each_row_map. }
  split.
  - intros H. unfold matVecMult.
    destruct (length vec =? 3)%nat eqn:E; [|exact G].
    apply Nat.eqb_eq in E. contradiction.
  - rewrite <- G. unfold matVecMult.
    destruct (length vec =? 3)%nat eqn:E.
    + apply Nat.eqb_eq in E.
      unfold matVecMult_general. rewrite !each_row_map, E.
      apply Forall2_map_same. intros row. apply unrolled_vs_accumulate.
    + apply Forall2_same_length_lookup_2; [reflexivity|].
      intros i x y Hx Hy. left. congruence.
Qed.

Lemma matVecMult_by_innerProduct_witness :
  matVecMult [[2; 1]; [1; 3]] [4; 5]
  = map (fun row => innerProduct row [4; 5] (Some 2%nat)) [[2; 1]; [1; 3]].
Proof.
  apply (proj1 (matVecMult_by_innerProduct [[2; 1]; [1; 3]] [4; 5])).
  cbn. lia.
Defined.

(** *** [innerProduct] *)

(** X4: the inner product is symmetric, bit for bit: with a length given,
    [innerProduct(a, b, n)] is [innerProduct(b, a, n)]; with it omitted,
    the length is that of the first argument. *)
Theorem innerProduct_symmetric (a b : list float) (n : nat) :
  innerProduct a b (Some n) = innerProduct b a (Some n)
  /\ innerProduct a b None = innerProduct b a (Some (length a)).
Proof.
  unfold innerProduct.
  split; apply fold_add_ext; intros k _; apply mul_comm.
Qed.

(** X5: [innerProduct(a, b, n)] is NaN as soon as [n] is more than the
    length of the shorter of the two arrays. *)
Theorem innerProduct_short (a b : list float) (n : nat) :
  (Nat.min (length a) (length b) < n)%nat ->
  innerProduct a b (Some n) = nan.
Proof.
  intros H. unfold innerProduct.
  apply (fold_add_meets_nan (fun k => num_at a k * num_at b k) n
           (Nat.min (length a) (length b)) 0 H).
  destruct (Nat.min_dec (length a) (length b)) as [E|E]; rewrite E.
  - rewrite (num_at_past a) by lia. apply mul_nan_l.
  - rewrite (num_at_past b) by lia. apply mul_nan_r.
Qed.

Lemma innerProduct_short_witness :
  innerProduct [1; 2; 3] [4; 5] (Some 3%nat) = nan.
Proof. apply (innerProduct_short [1; 2; 3] [4; 5] 3). cbn. lia. Defined.

(** *** [crossProduct] *)



End VectorFacts.

(** ** Matrices: [matrix], [identity], [matMatMult], [matTranspose] *)
Module MatrixFacts.

Import JS Num Kernel NumFacts KernelFacts NumAlgebra VectorFacts.
Local Open Scope float_scope.

(** *** Arrays of rows given entry by entry *)

Lemma entry_table (h : nat -> nat -> jsval) (n m i j : nat) :
  (i < n)%nat -> (j < m)%nat ->
  entry ((fun i => h i <$> seq 0 m) <$> seq 0 n) i j = h i j.
Proof.
  intros Hi Hj. unfold entry.
  rewrite list_lookup_fmap, lookup_seq_lt by lia. cbn.
  rewrite list_lookup_fmap, lookup_seq_lt by lia. reflexivity.
Qed.

Lemma table_rows (h : nat -> nat -> jsval) (n m : nat) :
  length ((fun i => h i <$> seq 0 m) <$> seq 0 n) = n
  /\ Forall (fun row => length row = m)
            ((fun i => h i <$> seq 0 m) <$> seq 0 n).
Proof.
  split; [now rewrite length_fmap, length_seq|].
  apply Forall_fmap, Forall_forall. intros i _. cbn.
  now rewrite length_fmap, length_seq.
Qed.

Lemma columns_table (h : nat -> nat -> jsval) (n m : nat) :
  (0 < n)%nat -> columns ((fun i => h i <$> seq 0 m) <$> seq 0 n) = m.
Proof.
  intros Hn. destruct n as [|n]; [lia|]. cbn.
  now rewrite length_fmap, length_seq.
Qed.

Lemma table_ext (h g : nat -> nat -> jsval) (n m : nat) :
  (forall i j, (i < n)%nat -> (j < m)%nat -> h i j = g i j) ->
  (fun i => h i <$> seq 0 m) <$> seq 0 n
  = (fun i => g i <$> seq 0 m) <$> seq 0 n.
Proof.
  intros H. apply list_fmap_ext. intros a i Ha.
  apply lookup_seq in Ha as [-> Hi].
  apply list_fmap_ext. intros b j Hb.
  apply lookup_seq in Hb as [-> Hj]. apply H; lia.
Qed.

Lemma replicate_table (v : jsval) (n m : nat) :
  replicate n (replicate m v)
  = (fun i => (fun _ => v) <$> seq 0 m) <$> seq 0 n.
Proof.
  assert (R : forall k s, replicate k v = (fun _ : nat => v) <$> seq s k).
  { induction k as [|k IH]; intros s; [reflexivity|].
    cbn. now rewrite <- IH. }
  rewrite <- (R m 0%nat).
  generalize 0%nat. induction n as [|n IH]; intros s; [reflexivity|].
  cbn. now rewrite <- IH.
Qed.

(** One assignment [r[i][j] = v]. *)
Lemma set_entry_table (h : nat -> nat -> jsval) (n m i j : nat) (v : jsval) :
  (i < n)%nat -> (j < m)%nat ->
  set_entry i j v ((fun i => h i <$> seq 0 m) <$> seq 0 n)
  = (fun i' => (fun j' => if decide (i' = i /\ j' = j) then v else h i' j')
               <$> seq 0 m) <$> seq 0 n.
Proof.
  intros Hi Hj. unfold set_entry.
  rewrite list_lookup_fmap, lookup_seq_lt by lia. cbn.
  apply list_eq. intros i'.
  destruct (decide (i' = i)) as [->|Ni].
  - rewrite list_lookup_insert_eq by (rewrite length_fmap, length_seq; lia).
    rewrite list_lookup_fmap, lookup_seq_lt by lia. cbn. f_equal.
    apply list_eq. intros j'.
    destruct (decide (j' = j)) as [->|Nj].
    + rewrite list_lookup_insert_eq by (rewrite length_fmap, length_seq; lia).
      rewrite list_lookup_fmap, lookup_seq_lt by lia. cbn.
      now rewrite decide_True.
    + rewrite list_lookup_insert_ne by lia.
      rewrite !list_lookup_fmap.
      destruct (seq 0 m !! j') as [x|] eqn:E; [|reflexivity].
      apply lookup_seq in E as [-> _]. cbn.
      rewrite decide_False by lia. reflexivity.
  - rewrite list_lookup_insert_ne by lia.
    rewrite !list_lookup_fmap.
    destruct (seq 0 n !! i') as [x|] eqn:E; [|reflexivity].
    apply lookup_seq in E as [-> _]. cbn. f_equal.
    apply list_fmap_ext. intros ? j' _.
    rewrite decide_False by lia. reflexivity.
Qed.

(** *** [matrix] *)



(** *** [identity] *)

(** The diagonal loop of [identity], after [k] steps. *)
Lemma diagonal_steps (n m k : nat) :
  (k <= Nat.min n m)%nat ->
  fold_left (fun r i => set_entry i i (JNum 1) r) (seq 0 k)
            (replicate n (replicate m (JNum 0)))
  = (fun i => (fun j => JNum (if (i <? k)%nat && (i =? j)%nat then 1 else 0))
              <$> seq 0 m) <$> seq 0 n.
Proof.
  intros Hk. induction k as [|k IH].
  - cbn [seq fold_left]. rewrite replicate_table. reflexivity.
  - rewrite seq_S, fold_left_app, IH by lia. cbn [fold_left Nat.add].
    rewrite set_entry_table by lia.
    apply table_ext. intros i j Hi Hj.
    destruct (decide (i = k /\ j = k)) as [[-> ->]|N].
    + replace (k <? S k)%nat with true by (symmetry; apply Nat.ltb_lt; lia).
      now rewrite Nat.eqb_refl.
    + destruct (Nat.eqb_spec i j) as [->|Nij].
      * assert (j <> k) by tauto.
        rewrite !andb_true_r.
        destruct (Nat.ltb_spec j k), (Nat.ltb_spec j (S k));
          try reflexivity; lia.
      * now rewrite !andb_false_r.
Qed.

(** X9: [identity(n, m)] for whole numbers has [n] rows of [m] entries,
    with 1 on the diagonal and 0 elsewhere, also when [n] and [m]
    differ. *)
Theorem identity_entries (n m : nat) :
  length (identity n m) = n
  /\ Forall (fun row => length row = m) (identity n m)
  /\ (forall i j, (i < n)%nat -> (j < m)%nat ->
        entry (identity n m) i j = JNum (if (i =? j)%nat then 1 else 0)).
Proof.
  unfold identity. rewrite matrix_replicate.
  change (or_zero JUndef) with (JNum 0).
  rewrite diagonal_steps by lia.
  destruct (table_rows
              (fun i j => JNum (if (i <? Nat.min n m)%nat && (i =? j)%nat
                                then 1 else 0)) n m) as [H1 H2].
  split; [exact H1|]. split; [exact H2|].
  intros i j Hi Hj. rewrite entry_table by lia.
  destruct (Nat.eqb_spec i j) as [->|]; [|now rewrite andb_false_r].
  replace (j <? Nat.min n m)%nat with true
    by (symmetry; apply Nat.ltb_lt; lia).
  reflexivity.
Qed.

Lemma identity_entries_witness :
  entry (identity 2 3) 1 1 = JNum 1 /\ entry (identity 2 3) 1 2 = JNum 0.
Proof.
  split; apply (proj2 (proj2 (identity_entries 2 3))); lia.
Defined.

(** *** Arrays of rows of numbers *)

Lemma numbers_table (h : nat -> nat -> float) (n m : nat) :
  numbers ((fun i => h i <$> seq 0 m) <$> seq 0 n)
  = (fun i => (fun j => JNum (h i j)) <$> seq 0 m) <$> seq 0 n.
Proof.
  unfold numbers. change (map ?f ?l) with (f <$> l).
  rewrite <- list_fmap_compose. apply list_fmap_ext. intros a i _. cbn.
  change (map JNum ?l) with (JNum <$> l).
  now rewrite <- list_fmap_compose.
Qed.

Lemma nth_table (h : nat -> nat -> float) (n m i : nat) :
  (i < n)%nat ->
  nth i ((fun i => h i <$> seq 0 m) <$> seq 0 n) [] = h i <$> seq 0 m.
Proof.
  intros Hi. apply nth_lookup_Some.
  now rewrite list_lookup_fmap, lookup_seq_lt by lia.
Qed.

Lemma num_at_row (f : nat -> float) (m j : nat) :
  (j < m)%nat -> num_at (f <$> seq 0 m) j = f j.
Proof.
  intros Hj. unfold num_at. apply nth_lookup_Some.
  now rewrite list_lookup_fmap, lookup_seq_lt by lia.
Qed.

Lemma num_at_column (j k : nat) (A : list (list float)) :
  (k < length A)%nat -> num_at (column j A) k = num_at (nth k A []) j.
Proof.
  intros Hk. unfold column, num_at at 1.
  rewrite (nth_indep _ nan (num_at [] j)) by now rewrite length_map.
  apply (map_nth (fun row => num_at row j)).
Qed.

Lemma entry_numbers (A : list (list float)) (p i j : nat) :
  Forall (fun row => length row = p) A ->
  (i < length A)%nat -> (j < p)%nat ->
  entry (numbers A) i j = JNum (num_at (nth i A []) j).
Proof.
  intros HA Hi Hj. unfold entry, numbers.
  change (map ?f ?l) with (f <$> l).
  destruct (lookup_lt_is_Some_2 A i Hi) as [row Hrow].
  rewrite list_lookup_fmap, Hrow. cbn.
  change (map JNum row) with (JNum <$> row).
  assert (Hlen : length row = p)
    by (eapply (proj1 (Forall_lookup _ _) HA); eauto).
  destruct (lookup_lt_is_Some_2 row j ltac:(lia)) as [x Hx].
  rewrite list_lookup_fmap, Hx. cbn. f_equal.
  rewrite (nth_lookup_Some _ _ [] _ Hrow). unfold num_at.
  symmetry. now apply nth_lookup_Some.
Qed.

(** *** The identity matrix times a vector *)

Lemma identity_numbers n : identity n n = numbers (unit_rows n).
Proof.
  unfold identity, unit_rows. rewrite matrix_replicate.
  change (or_zero JUndef) with (JNum 0).
  rewrite diagonal_steps, numbers_table by lia.
  apply table_ext. intros i j Hi Hj.
  replace (i <? Nat.min n n)%nat with true
    by (symmetry; apply Nat.ltb_lt; lia).
  now destruct (i =? j)%nat.
Qed.

(** A term of row [i] of the identity times a finite vector: the entry
    [v[i]] at [k = i], a zero elsewhere. *)
Lemma unit_row_term (v : list float) (n i k : nat) :
  length v = n -> Forall (fun x => isFinite x = true) v ->
  (i < n)%nat -> (k < n)%nat ->
  (num_at ((fun j => if (i =? j)%nat then 1 else 0) <$> seq 0 n) k
   * num_at v k = num_at v i /\ k = i)
  \/ (is_zero (num_at ((fun j => if (i =? j)%nat then 1 else 0) <$> seq 0 n) k
               * num_at v k) /\ k <> i).
Proof.
  intros Hlen Hfin Hi Hk. rewrite num_at_row by lia.
  destruct (Nat.eqb_spec i k) as [->|N].
  - left. split; [apply mul_one_l|reflexivity].
  - right. split; [|lia]. apply mul_zero_finite.
    unfold num_at. apply (proj1 (List.Forall_nth _ _) Hfin). lia.
Qed.

(** X10: the square identity matrix is a matrix of numbers, and
    multiplying it to a vector [v] of finite numbers of the same length
    returns [v]: every entry of [matVecMult(identity(n, n), v)] is [==] to
    the entry of [v], on the unrolled path and on the loop. *)
Theorem matVecMult_identity (n : nat) :
  exists I,
    identity n n = numbers I
    /\ forall v, length v = n -> Forall (fun x => isFinite x = true) v ->
         Forall2 (fun r x => (r =? x) = true) (matVecMult I v) v.
Proof.
  exists (unit_rows n). split; [apply identity_numbers|].
  intros v Hlen Hfin.
  assert (Hrows : length (unit_rows n) = n)
    by (unfold unit_rows; now rewrite length_fmap, length_seq).
  apply Forall2_same_length_lookup_2.
  { rewrite matVecMult_length. congruence. }
  intros i r x Hr Hx.
  assert (Hi : (i < n)%nat) by (rewrite <- Hlen; eapply lookup_lt_Some; eauto).
  assert (Ex : num_at v i = x) by (unfold num_at; now apply nth_lookup_Some).
  assert (Hfx : isFinite x = true)
    by (eapply (proj1 (Forall_lookup _ _) Hfin); eauto).
  apply same_or_zeros_eqb; [|exact Hfx].
  set (row := (fun j => if (i =? j)%nat then 1 else 0) <$> seq 0 n).
  assert (Hrow : unit_rows n !! i = Some row)
    by (unfold unit_rows; now rewrite list_lookup_fmap, lookup_seq_lt by lia).
  pose proof (unit_row_term v n i) as T.
  unfold matVecMult, matVecMult_general in Hr.
  destruct (length v =? 3)%nat eqn:E3; rewrite each_row_map in Hr;
    change (map ?f ?l) with (f <$> l) in Hr;
    rewrite list_lookup_fmap, Hrow in Hr; injection Hr as <-.
  - (* the unrolled path *)
    apply Nat.eqb_eq in E3. assert (Hn3 : n = 3%nat) by congruence.
    unfold unrolled. fold row in T.
    destruct (T 0%nat Hlen Hfin Hi ltac:(lia)) as [[T0 E0]|[T0 E0]];
    destruct (T 1%nat Hlen Hfin Hi ltac:(lia)) as [[T1 E1]|[T1 E1]];
    destruct (T 2%nat Hlen Hfin Hi ltac:(lia)) as [[T2 E2]|[T2 E2]];
      try lia.
    + rewrite T0, Ex. apply same_add_zero; [|exact T2].
      apply same_add_zero; [left; reflexivity|exact T1].
    + rewrite T1, Ex. apply same_add_zero; [|exact T2].
      now apply zero_add.
    + rewrite T2, Ex. apply zero_add. now apply add_zeros.
  - (* the loop *)
    unfold accumulate. rewrite Hlen. rewrite <- Ex.
    apply (fold_one_term (fun k => num_at row k * num_at v k) n i);
      [exact Hi| |].
    + destruct (T i Hlen Hfin Hi Hi) as [[T0 _]|[_ N]];
        [exact T0|contradiction].
    + intros k Hk Nk.
      destruct (T k Hlen Hfin Hi Hk) as [[_ E]|[Z _]];
        [contradiction|exact Z].
Qed.

Lemma matVecMult_identity_witness :
  exists I,
    identity 3 3 = numbers I
    /\ Forall2 (fun r x => (r =? x) = true)
               (matVecMult I [3; -0.5; neg_zero]) [3; -0.5; neg_zero].
Proof.
  destruct (matVecMult_identity 3) as (I & HI & H).
  exists I. split; [exact HI|].
  apply H; [reflexivity|]. repeat constructor.
Defined.

(** *** [matMatMult] *)

(** [matMatMult] on a [mat2] with a first row: the table of the inner
    products of the rows of [mat1] with the columns of [mat2]. *)
Lemma matMatMult_table (mat1 : list (list float)) (row0 : list float)
      (mat2 : list (list float)) :
  matMatMult mat1 (row0 :: mat2)
  = Some ((fun i =>
             (fun j => JNum (innerProduct (nth i mat1 [])
                                          (column j (row0 :: mat2))
                                          (Some (length (row0 :: mat2)))))
             <$> seq 0 (length row0)) <$> seq 0 (length mat1)).
Proof.
  unfold matMatMult.
  assert (Hn : (if (0 <? length mat1)%nat
                then length <$> (row0 :: mat2) !! 0%nat else Some 0%nat)
               = Some (if (0 <? length mat1)%nat then length row0 else 0%nat))
    by (destruct (0 <? length mat1)%nat; reflexivity).
  rewrite Hn. f_equal.
  set (n := if (0 <? length mat1)%nat then length row0 else 0%nat).
  rewrite matrix_replicate.
  pose proof (fill_rows
    (fun i j => JNum (fold_left
       (fun s k => s + num_at (nth i mat1 []) k
                       * num_at (nth k (row0 :: mat2) []) j)
       (seq 0 (length (row0 :: mat2))) 0))
    n (replicate (length mat1) (replicate n (or_zero JUndef))) []) as H.
  rewrite length_replicate in H. cbn [app length] in H. cbn [length].
  rewrite H by (apply Forall_replicate, length_replicate). clear H.
  destruct mat1 as [|r1 mat1]; [reflexivity|].
  subst n. cbn [length Nat.ltb Nat.leb].
  apply list_fmap_ext. intros a i Ha. apply lookup_seq in Ha as [-> Hi].
  apply list_fmap_ext. intros b j Hb. apply lookup_seq in Hb as [-> Hj].
  cbn [Nat.add]. f_equal. unfold innerProduct.
  apply fold_add_ext. intros k Hk. apply in_seq in Hk.
  rewrite num_at_column by (cbn [length] in *; lia). reflexivity.
Qed.

Lemma matMatMult_with_first_row (mat1 mat2 : list (list float))
      (row0 : list float) :
  mat2 !! 0%nat = Some row0 ->
  matMatMult mat1 mat2
  = Some ((fun i =>
             (fun j => JNum (innerProduct (nth i mat1 []) (column j mat2)
                                          (Some (length mat2))))
             <$> seq 0 (length row0)) <$> seq 0 (length mat1)).
Proof.
  destruct mat2 as [|r mat2]; [discriminate|].
  intros [= ->]. apply matMatMult_table.
Qed.

(** X11: the shape of a product.  With no row in [mat1] the result is the
    empty array, whatever [mat2] is; with rows in [mat1] and none in
    [mat2] the call throws (it reads [mat2[0].length]); otherwise the
    result has a row for each row of [mat1], of the length of the first
    row of [mat2]. *)
Theorem matMatMult_shape :
  (forall mat2, matMatMult [] mat2 = Some [])
  /\ (forall mat1, mat1 <> [] -> matMatMult mat1 [] = None)
  /\ (forall mat1 row0 mat2,
        exists C, matMatMult mat1 (row0 :: mat2) = Some C
                  /\ length C = length mat1
                  /\ Forall (fun row => length row = length row0) C).
Proof.
  split; [reflexivity|]. split.
  - intros [|r mat1] H; [contradiction|reflexivity].
  - intros mat1 row0 mat2. eexists. split; [apply matMatMult_table|].
    apply table_rows.
Qed.

Lemma matMatMult_shape_witness :
  matMatMult [[1; 2]] [] = None.
Proof.
  apply (proj1 (proj2 matMatMult_shape) [[1; 2]]). discriminate.
Defined.

(** X12: entry [(i, j)] of [matMatMult(mat1, mat2)] is the inner product
    of row [i] of [mat1] with column [j] of [mat2] over [mat2.length]
    terms, bit for bit (the terms are added in the same order). *)
Theorem matMatMult_entries (mat1 : list (list float)) (row0 : list float)
        (mat2 : list (list float)) (i j : nat) :
  (i < length mat1)%nat -> (j < length row0)%nat ->
  exists C,
    matMatMult mat1 (row0 :: mat2) = Some C
    /\ entry C i j
       = JNum (innerProduct (nth i mat1 []) (column j (row0 :: mat2))
                            (Some (length (row0 :: mat2)))).
Proof.
  intros Hi Hj. eexists. split; [apply matMatMult_table|].
  now rewrite entry_table.
Qed.

Lemma matMatMult_entries_witness :
  exists C,
    matMatMult [[1; 2]; [3; 4]] [[5; 6]; [7; 8]] = Some C
    /\ entry C 1 0
       = JNum (innerProduct [3; 4] (column 0 [[5; 6]; [7; 8]]) (Some 2%nat)).
Proof.
  apply (matMatMult_entries [[1; 2]; [3; 4]] [5; 6] [[7; 8]] 1 0); cbn; lia.
Defined.

(** X17: the square identity matrix is a left unit of the product on
    matrices of finite numbers: for [B] of [n >= 1] rows and [m] columns,
    every entry of [matMatMult(identity(n, n), B)] is [==] to the entry of
    [B]. *)
Theorem matMatMult_identity (n m : nat) (B : list (list float)) :
  length B = n -> (0 < n)%nat ->
  Forall (fun row => length row = m
                     /\ Forall (fun x => isFinite x = true) row) B ->
  exists I C,
    identity n n = numbers I
    /\ matMatMult I B = Some C
    /\ forall i j, (i < n)%nat -> (j < m)%nat ->
         exists r, entry C i j = JNum r
                   /\ (r =? num_at (nth i B []) j) = true.
Proof.
  intros Hlen Hn HB.
  destruct B as [|row0 B']; [cbn in Hlen; lia|].
  exists (unit_rows n). eexists. split; [apply identity_numbers|].
  split; [apply matMatMult_table|].
  intros i j Hi Hj.
  assert (Hrow0 : length row0 = m)
    by (apply Forall_cons in HB as [[H _] _]; exact H).
  assert (Hrows : length (unit_rows n) = n)
    by (unfold unit_rows; now rewrite length_fmap, length_seq).
  rewrite Hrows, Hrow0, entry_table by lia.
  eexists. split; [reflexivity|].
  set (v := column j (row0 :: B')).
  assert (Lv : length v = n)
    by (unfold v, column; rewrite length_map; exact Hlen).
  assert (Fv : Forall (fun x => isFinite x = true) v).
  { unfold v, column. change (map ?f ?l) with (f <$> l).
    apply Forall_fmap. eapply Forall_impl; [exact HB|].
    intros row [Hl Hf]. cbn.
    unfold num_at. apply (proj1 (List.Forall_nth _ _) Hf). lia. }
  assert (Ev : num_at (nth i (row0 :: B') []) j = num_at v i)
    by (symmetry; apply num_at_column; lia).
  rewrite Ev, Hlen.
  apply same_or_zeros_eqb.
  - unfold innerProduct, unit_rows. rewrite nth_table by lia.
    pose proof (fun k => unit_row_term v n i k Lv Fv Hi) as T.
    apply (fold_one_term _ n i); [exact Hi| |].
    + destruct (T i Hi) as [[T0 _]|[_ N]]; [exact T0|contradiction].
    + intros k Hk Nk.
      destruct (T k Hk) as [[_ E]|[Z _]]; [contradiction|exact Z].
  - unfold num_at. apply (proj1 (List.Forall_nth _ _) Fv). lia.
Qed.

Lemma matMatMult_identity_witness :
  exists I C,
    identity 2 2 = numbers I
    /\ matMatMult I [[1; 2; 3]; [4; 5; 6]] = Some C
    /\ forall i j, (i < 2)%nat -> (j < 3)%nat ->
         exists r, entry C i j = JNum r
                   /\ (r =? num_at (nth i [[1; 2; 3]; [4; 5; 6]] []) j) = true.
Proof.
  apply (matMatMult_identity 2 3 [[1; 2; 3]; [4; 5; 6]]).
  - reflexivity.
  - lia.
  - repeat constructor.
Defined.

(** *** [matTranspose] on any array of rows *)

(** X13: [matTranspose(M)] takes its number of rows from the length of
    the first row of [M] and gives every row [M.length] entries; entry
    [(i, j)] is [M[j][i]].  On a ragged [M] a row shorter than the first
    contributes [undefined], and what a longer row has past that length is
    dropped. *)
Theorem matTranspose_entries (M : matrix_t) :
  length (matTranspose M) = columns M
  /\ Forall (fun row => length row = length M) (matTranspose M)
  /\ (forall i j, (i < columns M)%nat -> (j < length M)%nat ->
        entry (matTranspose M) i j = entry M j i).
Proof.
  rewrite matTranspose_spec.
  destruct (table_rows (fun i j => entry M j i) (columns M) (length M))
    as [H1 H2].
  split; [exact H1|]. split; [exact H2|].
  intros i j Hi Hj. now rewrite entry_table.
Qed.

Lemma matTranspose_entries_witness :
  let M := [[JNum 1; JNum 2]; [JNum 3]; [JNum 4; JNum 5; JNum 6]] in
  entry (matTranspose M) 1 1 = JUndef /\ length (matTranspose M) = 2%nat.
Proof.
  cbv zeta. split.
  - apply (proj2 (proj2 (matTranspose_entries
             [[JNum 1; JNum 2]; [JNum 3]; [JNum 4; JNum 5; JNum 6]])));
      cbn; lia.
  - apply (proj1 (matTranspose_entries
             [[JNum 1; JNum 2]; [JNum 3]; [JNum 4; JNum 5; JNum 6]])).
Defined.

(** *** The transpose of a product *)

(** The transpose of a rectangular matrix of numbers with at least one
    row is a matrix of numbers. *)
Lemma matTranspose_numbers (A : list (list float)) (p : nat) :
  Forall (fun row => length row = p) A -> A <> [] ->
  matTranspose (numbers A)
  = numbers ((fun i => (fun j => num_at (nth j A []) i) <$> seq 0 (length A))
             <$> seq 0 p).
Proof.
  intros HA Hne. rewrite matTranspose_spec, numbers_table.
  assert (Hlen : length (numbers A) = length A) by apply length_map.
  assert (Hcol : columns (numbers A) = p).
  { destruct A as [|r A]; [contradiction|]. cbn.
    apply Forall_cons in HA as [H0 _]. now rewrite length_map. }
  rewrite Hlen, Hcol. apply table_ext. intros i j Hi Hj.
  now apply (entry_numbers A p).
Qed.

(** X14: the transpose of a product is the product of the transposes in
    the other order, bit for bit: for [A] of [m >= 1] rows and [p >= 1]
    columns and [B] of [p] rows and [n] columns,
    [matTranspose(matMatMult(A, B))] is
    [matMatMult(matTranspose(B), matTranspose(A))]. *)
Theorem matTranspose_product (A B : list (list float)) (p n : nat) :
  Forall (fun row => length row = p) A ->
  length B = p ->
  Forall (fun row => length row = n) B ->
  A <> [] -> (0 < p)%nat ->
  exists AT BT C D,
    matTranspose (numbers A) = numbers AT
    /\ matTranspose (numbers B) = numbers BT
    /\ matMatMult A B = Some C
    /\ matMatMult BT AT = Some D
    /\ matTranspose C = D.
Proof.
  intros HA <- HB HAne Hp. set (p := length B) in *.
  assert (HBne : B <> []) by (intros ->; cbn in p; lia).
  assert (Hrow0 : exists row0, B !! 0%nat = Some row0 /\ length row0 = n).
  { destruct B as [|r B']; [contradiction|]. exists r. split; [reflexivity|].
    now apply Forall_cons in HB as [H0 _]. }
  destruct Hrow0 as (row0 & Hrow0 & Hn).
  set (m := length A). assert (Hm : (0 < m)%nat).
  { subst m. destruct A; [contradiction|cbn; lia]. }
  set (AT := (fun i => (fun j => num_at (nth j A []) i) <$> seq 0 m)
             <$> seq 0 p).
  set (BT := (fun i => (fun j => num_at (nth j B []) i) <$> seq 0 p)
             <$> seq 0 n).
  assert (HAT0 : AT !! 0%nat
                 = Some ((fun j => num_at (nth j A []) 0) <$> seq 0 m)).
  { subst AT. now rewrite list_lookup_fmap, lookup_seq_lt by lia. }
  exists AT, BT. do 2 eexists.
  split; [exact (matTranspose_numbers A p HA HAne)|].
  split; [exact (matTranspose_numbers B n HB HBne)|].
  split; [exact (matMatMult_with_first_row A B row0 Hrow0)|].
  split; [exact (matMatMult_with_first_row BT AT _ HAT0)|].
  rewrite matTranspose_spec.
  rewrite (proj1 (table_rows _ _ _)), columns_table by exact Hm.
  assert (LBT : length BT = n)
    by (subst BT; now rewrite length_fmap, length_seq).
  assert (LAT : length AT = p)
    by (subst AT; now rewrite length_fmap, length_seq).
  rewrite LBT, LAT, Hn, !length_fmap, !length_seq. fold m p.
  apply table_ext. intros j i Hj Hi.
  rewrite entry_table by lia. f_equal.
  unfold innerProduct. apply fold_add_ext. intros k Hk. apply in_seq in Hk.
  rewrite !num_at_column by lia.
  subst AT BT. rewrite !nth_table by lia.
  rewrite !num_at_row by lia. apply mul_comm.
Qed.

Lemma matTranspose_product_witness :
  exists AT BT C D,
    matTranspose (numbers [[1; 2; 3]; [4; 5; 6]]) = numbers AT
    /\ matTranspose (numbers [[1; 0]; [0; 1]; [2; 2]]) = numbers BT
    /\ matMatMult [[1; 2; 3]; [4; 5; 6]] [[1; 0]; [0; 1]; [2; 2]] = Some C
    /\ matMatMult BT AT = Some D
    /\ matTranspose C = D.
Proof.
  apply (matTranspose_product _ _ 3 2).
  - repeat constructor.
  - reflexivity.
  - repeat constructor.
  - discriminate.
  - lia.
Defined.

End MatrixFacts.

(** ** The hyperbolic functions *)
Module HyperbolicFacts.

Import Num Helpers NumFacts NumAlgebra.
Local Open Scope float_scope.

(** X15: [cosh] is even, bit for bit, whatever [Math.exp] computes. *)
Theorem cosh_even (Math_exp : float -> float) (x : float) :
  cosh Math_exp (- x) = cosh Math_exp x.
Proof. unfold cosh. now rewrite opp_opp, add_comm. Qed.

(** X16: [sinh] is odd, whatever [Math.exp] computes: [sinh(-x)] is
    [-sinh(x)] bit for bit, except that both are [+0] when
    [Math.exp(x)] and [Math.exp(-x)] are the same finite number. *)
Theorem sinh_odd (Math_exp : float -> float) (x : float) :
  sinh Math_exp (- x) = - sinh Math_exp x
  \/ (sinh Math_exp x = 0 /\ sinh Math_exp (- x) = 0).
Proof.
  unfold sinh. rewrite opp_opp.
  destruct (sub_swap (Math_exp x) (Math_exp (- x))) as [E|[E1 E2]].
  - left. now rewrite E, mul_opp_l.
  - right. rewrite E1, E2. split; reflexivity.
Qed.

End HyperbolicFacts.

(** ** [normalize] on every input *)
Module StdformEdges.

Import Num Stdform NumFacts NumAlgebra StdformFacts.
Local Open Scope float_scope.

(** In the small-radius branch the new slot 4, [signr * r], is [|r|]. *)
Lemma small_radius_range r :
  isNaN r = false -> (1 <=? Math_abs r) = false ->
  let k := (if r <=? 0 then -1 else 1) * r in
  (0 <=? k) = true /\ (k <=? 1) = true.
Proof.
  intros HN HA. cbv zeta.
  assert (K : (if r <=? 0 then -1 else 1) * r = if r <=? 0 then - r else r).
  { destruct (r <=? 0); [apply mul_minus_one_l|apply mul_one_l]. }
  rewrite K. clear K.
  apply isNaN_false in HN.
  unfold Math_abs in HA.
  rewrite FloatAxioms.leb_spec, abs_spec, Prim2SF_one in HA.
  assert (G : SFleb (S754_zero false)
                (Prim2SF (if r <=? 0 then - r else r)) = true
              /\ SFleb (Prim2SF (if r <=? 0 then - r else r))
                   (S754_finite false 4503599627370496 (-52)) = true).
  { rewrite (FloatAxioms.leb_spec r 0).
    change (Prim2SF 0) with (S754_zero false).
    destruct (Prim2SF r) as [s|s| |s m e] eqn:E.
    - cbn. rewrite opp_spec, E. split; reflexivity.
    - discriminate HA.
    - contradiction.
    - assert (Y : Prim2SF (if SFleb (S754_finite s m e) (S754_zero false)
                           then - r else r) = S754_finite false m e).
      { destruct s; cbn; [rewrite opp_spec, E|rewrite E]; reflexivity. }
      rewrite Y. split; [reflexivity|].
      cbn [SFabs] in HA. unfold SFleb in *.
      rewrite (SFcompare_swap (S754_finite false 4503599627370496 (-52))
                              (S754_finite false m e)).
      destruct (SFcompare (S754_finite false 4503599627370496 (-52))
                          (S754_finite false m e)) as [[]|] eqn:C;
        try discriminate HA; try reflexivity.
      discriminate C. }
  rewrite (FloatAxioms.leb_spec 0 _), (FloatAxioms.leb_spec _ 1), Prim2SF_one.
  change (Prim2SF 0) with (S754_zero false). exact G.
Qed.

(** X18: whatever the input is (a line, a circle, NaN or infinite
    entries), slot 4 of the normalized stdform is a number from 0 to 1:
    1 in the line and large-radius branches, [|r| < 1] in the small-radius
    branch. *)
Theorem normalize_k_range (s : stdform) :
  (0 <=? slot4 (normalize s)) = true /\ (slot4 (normalize s) <=? 1) = true.
Proof.
  destruct (line_regime s) eqn:L.
  - rewrite (normalize_line s L). cbv zeta. cbn [slot4]. split; reflexivity.
  - destruct (1 <=? Math_abs (radius s)) eqn:A.
    + rewrite normalize_large by (unfold large_regime; now rewrite L, A).
      cbv zeta. cbn [slot4]. split; reflexivity.
    + rewrite normalize_small by (unfold small_regime; now rewrite L, A).
      cbv zeta. cbn [slot4]. apply small_radius_range; [|exact A].
      unfold line_regime in L. now apply orb_false_iff in L as [_ L].
Qed.

(** X19: a line ([a = +0]) with [k < 0] is not taken as a line: [r] is
    [-Infinity], which the test [r == Infinity || isNaN(r)] lets through
    to the large-radius branch, and the result has NaN in slots 0, 1 and
    2, [-0] in slot 3 and 1 in slot 4. *)
Theorem normalize_line_negative_k (s : stdform) :
  slot3 s = 0 -> (slot4 s <? 0) = true ->
  let t := normalize s in
  large_regime s = true
  /\ slot5 t = neg_infinity
  /\ slot0 t = nan /\ slot1 t = nan /\ slot2 t = nan
  /\ slot3 t = neg_zero /\ slot4 t = 1.
Proof.
  intros Ha Hk.
  assert (Hr : radius s = neg_infinity).
  { unfold radius. rewrite Ha. change (2 * 0) with 0.
    now apply div_neg_zero. }
  assert (HL : large_regime s = true).
  { unfold large_regime, line_regime. rewrite Hr. reflexivity. }
  cbv zeta. rewrite (normalize_large s HL). cbv zeta.
  cbn [slot0 slot1 slot2 slot3 slot4 slot5]. rewrite Hr.
  change (neg_infinity * neg_infinity) with infinity.
  change (2 * neg_infinity) with neg_infinity.
  unfold center0, center1. rewrite Ha. change (2 * 0) with 0.
  split; [exact HL|]. repeat split; try reflexivity.
  - apply sub_infinity_div.
  - apply div_zero_div_infinity.
  - apply div_zero_div_infinity.
Qed.

Lemma normalize_line_negative_k_witness :
  let t := normalize (fresh 1 1 1 0 (-1)) in
  large_regime (fresh 1 1 1 0 (-1)) = true
  /\ slot5 t = neg_infinity
  /\ slot0 t = nan /\ slot1 t = nan /\ slot2 t = nan
  /\ slot3 t = neg_zero /\ slot4 t = 1.
Proof.
  apply (normalize_line_negative_k (fresh 1 1 1 0 (-1))); reflexivity.
Defined.

End StdformEdges.

(** ** [binomial] off the integers *)
Module BinomialEdges.

Import Num Combinatorics NumFacts NumAlgebra.
Local Open Scope float_scope.

(** X20: [binomial(n, NaN)] is 1 for every [n]: NaN fails every test,
    that of the loop included. *)
Theorem binomial_nan_k (fuel : nat) (n : float) :
  binomial (S fuel) n nan = Some 1.
Proof.
  unfold binomial. rewrite ltb_nan, !eqb_nan. reflexivity.
Qed.

(** X21: a [k] that is not an integer is not rejected: the loop runs while
    [i < k], so for [0 < k < 1] and [k < n] it runs once and
    [binomial(n, k)] is [n]. *)
Theorem binomial_fraction_below_1 (fuel : nat) (n k : float) :
  (0 <? k) = true -> (k <? 1) = true -> (k <? n) = true ->
  binomial (S (S fuel)) n k = Some n.
Proof.
  intros H0 H1 Hn. unfold binomial.
  rewrite (ltb_asym _ _ Hn), (ltb_asym _ _ H0).
  rewrite (proj2 (ltb_not_eqb _ _ H0)), (proj1 (ltb_not_eqb _ _ Hn)).
  cbn [orb binomial_loop]. rewrite H0.
  change (0 + 1) with 1. rewrite (ltb_asym _ _ H1).
  now rewrite sub_zero_r, mul_one_l, div_one_r.
Qed.

Lemma binomial_fraction_below_1_witness :
  binomial 2 5 0.5 = Some 5.
Proof.
  apply (binomial_fraction_below_1 0 5 0.5); reflexivity.
Defined.

End BinomialEdges.
